(** * Expense tracker: message parser, allocation engine and balances

    A shallow embedding of [src/lib/parseMessage.ts], of the allocation code
    of the ingest and edit handlers of [src/app.ts], and of the repositories
    of [src/db-pg], followed by the properties proved about them.

    Conventions of the embedding.
    - A JavaScript string is a list of characters ([str]); the regular
      expressions of the source only tell ASCII characters apart, so a
      non-ASCII character is carried as its UTF-8 bytes and is neither a
      digit, a word character nor white space.
    - A JavaScript number is an element of a [Number] structure.  Two
      structures are given: exact rationals kept in lowest terms ([Q]), and
      IEEE-754 binary64 ([float]), which is what the interpreter runs.
    - The SQL tables are lists of rows inside a [Store]; a handler is a
      function from a store and a request to a response and a new store. *)

From Stdlib Require Import String Ascii Bool Arith ZArith QArith Qminmax Lia Lqa List
  Permutation.
From Stdlib Require Import Floats Uint63.
Import ListNotations.

Set Implicit Arguments.
Close Scope Q_scope.

(* ================================================================== *)
(** ** JavaScript strings *)

Module JsString.

Definition str := list ascii.

Definition lit (s : string) : str := list_ascii_of_string s.

Definition code (c : ascii) : nat := nat_of_ascii c.

(** [\s] on ASCII: tab, line feed, vertical tab, form feed, carriage return,
    space. *)
Definition isSpace (c : ascii) : bool :=
  let n := code c in ((9 <=? n) && (n <=? 13)) || (n =? 32).

(** [\d] and [[0-9]]. *)
Definition isDigit (c : ascii) : bool :=
  let n := code c in (48 <=? n) && (n <=? 57).

Definition isUpper (c : ascii) : bool :=
  let n := code c in (65 <=? n) && (n <=? 90).

Definition isLower (c : ascii) : bool :=
  let n := code c in (97 <=? n) && (n <=? 122).

(** [\w], the class that decides the word boundaries [\b]. *)
Definition isWordChar (c : ascii) : bool :=
  isDigit c || isUpper c || isLower c || (code c =? 95).

(** Line terminators, the characters [.] does not match. *)
Definition isLineTerminator (c : ascii) : bool :=
  (code c =? 10) || (code c =? 13).

Definition toLowerChar (c : ascii) : ascii :=
  if isUpper c then ascii_of_nat (code c + 32) else c.

Definition toLowerCase (s : str) : str := map toLowerChar s.

Definition str_eqb (a b : str) : bool :=
  if list_eq_dec ascii_dec a b then true else false.

Definition nonEmpty (s : str) : bool :=
  match s with [] => false | _ => true end.

Fixpoint trimStart (s : str) : str :=
  match s with
  | [] => []
  | c :: r => if isSpace c then trimStart r else s
  end.

Definition trimEnd (s : str) : str := rev (trimStart (rev s)).

Definition trim (s : str) : str := trimEnd (trimStart s).

(** [s.replace(/\s+/g, ' ')]; [inRun] tells that the previous character was
    white space already replaced. *)
Fixpoint collapseSpaces (inRun : bool) (s : str) : str :=
  match s with
  | [] => []
  | c :: r =>
      if isSpace c
      then (if inRun then collapseSpaces true r
            else " "%char :: collapseSpaces true r)
      else c :: collapseSpaces false r
  end.

(** [s.split(sep)] for a one-character separator. *)
Fixpoint split (sep : ascii) (s : str) : list str :=
  match s with
  | [] => [[]]
  | c :: r =>
      if Ascii.eqb c sep then [] :: split sep r
      else match split sep r with
           | w :: ws => (c :: w) :: ws
           | [] => [[c]]
           end
  end.

(** [xs.filter(Boolean)] on an array of strings. *)
Definition filterBoolean (xs : list str) : list str := filter nonEmpty xs.

(** [xs.join(' ')]. *)
Fixpoint join (xs : list str) : str :=
  match xs with
  | [] => []
  | [x] => x
  | x :: r => x ++ " "%char :: join r
  end.

(** [s.split(' ').filter(Boolean)]. *)
Definition words (s : str) : list str := filterBoolean (split " "%char s).

Fixpoint stripPrefix (p s : str) : option str :=
  match p, s with
  | [], _ => Some s
  | a :: p', b :: s' => if Ascii.eqb a b then stripPrefix p' s' else None
  | _ :: _, [] => None
  end.

(** [s.replace(pat, '')] with a string pattern: the first occurrence goes. *)
Fixpoint removeFirst (pat s : str) : str :=
  match stripPrefix pat s with
  | Some r => r
  | None => match s with
            | [] => []
            | c :: r => c :: removeFirst pat r
            end
  end.

(** The longest prefix of digits and what follows it. *)
Fixpoint spanDigits (s : str) : str * str :=
  match s with
  | c :: r => if isDigit c
              then (let (d, rest) := spanDigits r in (c :: d, rest))
              else ([], s)
  | [] => ([], [])
  end.

(** Whether a word boundary [\b] can follow a word character: the text ends
    or goes on with a non-word character. *)
Definition boundaryAfterWord (rest : str) : bool :=
  match rest with
  | [] => true
  | c :: _ => negb (isWordChar c)
  end.

End JsString.

Import JsString.

(* ================================================================== *)
(** ** JavaScript numbers *)

Module JsNumber.

(** The arithmetic the handlers use on numbers. *)
Class Number (num : Type) : Type := {
  nzero : num;
  nadd : num -> num -> num;
  nsub : num -> num -> num;
  nmul : num -> num -> num;
  ndiv : num -> num -> num;
  nneg : num -> num;
  nltb : num -> num -> bool;
  ofNat : nat -> num;
  (** [Number(text)] for a decimal numeral of the given value *)
  ofDecimal : Q -> num
}.

Definition QltBool (a b : Q) : bool :=
  (Qnum a * Zpos (Qden b) <? Qnum b * Zpos (Qden a))%Z.

(** Exact arithmetic, every result in lowest terms. *)
#[export] Instance NumberQ : Number Q := {
  nzero := 0%Q;
  nadd a b := Qred (a + b)%Q;
  nsub a b := Qred (a - b)%Q;
  nmul a b := Qred (a * b)%Q;
  ndiv a b := Qred (a / b)%Q;
  nneg a := Qred (- a)%Q;
  nltb := QltBool;
  ofNat n := inject_Z (Z.of_nat n);
  ofDecimal q := Qred q
}.

Definition floatOfZ (z : Z) : float :=
  if (z <? 0)%Z
  then PrimFloat.opp (PrimFloat.of_uint63 (Uint63.of_Z (- z)))
  else PrimFloat.of_uint63 (Uint63.of_Z z).

(** The double nearest to a rational whose numerator and denominator are
    both doubles (below 2^53 in particular): one correctly rounded
    division. *)
Definition floatOfQ (q : Q) : float :=
  PrimFloat.div (floatOfZ (Qnum q)) (floatOfZ (Zpos (Qden q))).

(** binary64 arithmetic, round to nearest even: the numbers of the
    interpreter. *)
#[export] Instance NumberFloat : Number float := {
  nzero := PrimFloat.zero;
  nadd := PrimFloat.add;
  nsub := PrimFloat.sub;
  nmul := PrimFloat.mul;
  ndiv := PrimFloat.div;
  nneg := PrimFloat.opp;
  nltb := PrimFloat.ltb;
  ofNat n := floatOfZ (Z.of_nat n);
  ofDecimal := floatOfQ
}.

Definition digitVal (c : ascii) : Z := (Z.of_nat (code c) - 48)%Z.

Definition digitsToZ (ds : str) : Z :=
  fold_left (fun acc c => (10 * acc + digitVal c)%Z) ds 0%Z.

(** The rational a decimal numeral denotes: [Number(int + '.' + frac)]
    before rounding. *)
Definition decimalToQ (int frac : str) : Q :=
  Qred (Qmake (digitsToZ (int ++ frac))
              (Z.to_pos (10 ^ Z.of_nat (length frac))%Z)).

(** [Number.isFinite(Number(text))] for a non-negative numeral of value [q]:
    rounding overflows to [Infinity] from the midpoint 2^1024 - 2^970 on. *)
Definition jsIsFinite (q : Q) : bool :=
  QltBool q (inject_Z (2 ^ 1024 - 2 ^ 970)%Z).

(** [Number(text) > 0] for a numeral of value [q]: a value of at most
    2^-1075 rounds to zero. *)
Definition jsIsPositive (q : Q) : bool :=
  QltBool (Qmake 1 (2 ^ 1075)%positive) q.

End JsNumber.

Import JsNumber.

(* ================================================================== *)
(** ** The parsed message ([ParsedExpense]) *)

Inductive Payer : Type := Me | Roommate.

Inductive EntryType : Type :=
  TExpense | TIncome | TTransfer | TInvestment | TLiability | TReceivable.

Inductive LedgerDirection : Type := ILent | IBorrowed | Repay | Collect.

Inductive SplitType : Type := SplitNone | SplitEqual | SplitRatio.

Inductive DebtDirection : Type := TheyOweMe | IOweThem.

(** An occurrence date.  [Ymd] is a literal [YYYY-MM-DD] text; [Dmy d m y]
    stands for [toYmd(new Date(y, m - 1, d))], the calendar normalisation of
    the runtime being left symbolic; [DaysFromToday k] stands for the date of
    the clock moved by [k] days. *)
Inductive DateRef : Type :=
  | Ymd (text : str)
  | Dmy (dd mm yyyy : Z)
  | DaysFromToday (k : Z).

Module Parsed.
Record t (num : Type) : Type := mk {
  amount : num;
  myAmount : option num;
  currency : option str;
  occurredOn : option DateRef;
  category : option str;
  note : option str;
  card : option str;
  paidBy : option Payer;
  type : option EntryType;
  account : option str;
  asset : option str;
  liability : option str;
  counterparty : option str;
  direction : option LedgerDirection;
  splitType : option SplitType;
  splitRatioMe : option num;
  splitRatioOther : option num;
  otherParty : option str;
  otherParties : option (list str);
  forPerson : option str
}.

(** The same message over another number structure. *)
Definition mapNum {A B : Type} (f : A -> B) (p : t A) : t B :=
  mk (f (amount p)) (option_map f (myAmount p)) (currency p) (occurredOn p)
     (category p) (note p) (card p) (paidBy p) (type p) (account p)
     (asset p) (liability p) (counterparty p) (direction p) (splitType p)
     (option_map f (splitRatioMe p)) (option_map f (splitRatioOther p))
     (otherParty p) (otherParties p) (forPerson p).
End Parsed.

(* ================================================================== *)
(** ** [src/lib/parseMessage.ts] *)

Module Parser.

Definition CATEGORY_WORDS : list string :=
  [ "food"; "dining"; "restaurant";
    "grocery";
    "rent"; "housing"; "mortgage";
    "travel"; "transport"; "transit"; "cab"; "uber"; "lyft"; "ola"; "taxi";
    "flight"; "hotel"; "parking"; "toll"; "fuel"; "gas";
    "clipper"; "bart"; "muni"; "caltrain";
    "bills"; "utilities"; "electric"; "water"; "internet"; "phone";
    "subscription"; "subscriptions"; "netflix"; "spotify"; "youtube"; "apple";
    "shopping";
    "walmart"; "amazon"; "dollartree"; "dollar-tree"; "dollar_tree"; "dollar";
    "entertainment"; "movies"; "movie"; "comedy"; "show"; "shows";
    "health"; "medical"; "pharmacy";
    "education"; "gifts" ]%string.

(** [c === w1 || c === w2 || ...]. *)
Definition isOneOf (ws : list string) (c : str) : bool :=
  existsb (fun w => str_eqb c (lit w)) ws.

(** [CATEGORY_WORDS.has(w)]. *)
Definition categoryWordsHas (w : str) : bool := isOneOf CATEGORY_WORDS w.

Definition normalizeCategory (cat : str) : str :=
  let c := toLowerCase (trim cat) in
  if negb (nonEmpty c) then c
  else if isOneOf ["walmart"; "amazon"; "dollartree"; "dollar-tree";
                   "dollar_tree"]%string c then lit "shopping"
  else if isOneOf ["groceries"]%string c then lit "grocery"
  else if isOneOf ["mortgage"]%string c then lit "housing"
  else if isOneOf ["cab"; "uber"; "lyft"; "ola"; "taxi"]%string c
       then lit "transport"
  else if isOneOf ["clipper"; "bart"; "muni"; "caltrain"]%string c
       then lit "travel"
  else if isOneOf ["restaurant"]%string c then lit "dining"
  else if isOneOf ["movie"; "movies"; "comedy"; "show"; "shows"]%string c
       then lit "entertainment"
  else if isOneOf ["electric"; "water"; "internet"; "phone"]%string c
       then lit "utilities"
  else if isOneOf ["subscription"; "subscriptions"; "netflix"; "spotify";
                   "youtube"]%string c then lit "subscriptions"
  else c.

(** [input.trim().replace(/\s+/g, ' ')]; the last replacement of the source
    maps the rupee sign to itself. *)
Definition normalize (input : str) : str :=
  collapseSpaces false (trim input).

(** *** [parseDateToken] *)

Definition allDigits (s : str) : bool := forallb isDigit s.

(** [(\d{4})-(\d{2})-(\d{2})\b] at the head of [s]: the text matched. *)
Definition isoAt (s : str) : option str :=
  match s with
  | y1 :: y2 :: y3 :: y4 :: h1 :: m1 :: m2 :: h2 :: d1 :: d2 :: rest =>
      if allDigits [y1; y2; y3; y4; m1; m2; d1; d2]
         && Ascii.eqb h1 "-" && Ascii.eqb h2 "-"
         && boundaryAfterWord rest
      then Some [y1; y2; y3; y4; h1; m1; m2; h2; d1; d2]
      else None
  | _ => None
  end.

(** The leftmost match of a pattern that starts with [\b] and a word
    character; [prevWord] tells whether the character before is one. *)
Fixpoint findBoundary {A : Type} (at_ : str -> option A) (prevWord : bool)
    (s : str) : option A :=
  match (if prevWord then None else at_ s) with
  | Some m => Some m
  | None => match s with
            | [] => None
            | c :: r => findBoundary at_ (isWordChar c) r
            end
  end.

(** [\d{1,2}], greedy, with the shorter alternative kept for backtracking. *)
Definition digits12 (s : str) : list (str * str) :=
  match s with
  | a :: b :: r =>
      if isDigit a
      then (if isDigit b then [([a; b], r); ([a], b :: r)]
            else [([a], b :: r)])
      else []
  | [a] => if isDigit a then [([a], [])] else []
  | [] => []
  end.

Fixpoint firstSome {A B : Type} (f : A -> option B) (xs : list A)
    : option B :=
  match xs with
  | [] => None
  | x :: r => match f x with Some y => Some y | None => firstSome f r end
  end.

(** [(\d{1,2})\/(\d{1,2})\/(\d{4})\b] at the head of [s]: the text matched
    and its three groups. *)
Definition slashAt (s : str) : option (str * (str * str * str)) :=
  firstSome (fun '(dd, r1) =>
    match r1 with
    | sl1 :: r2 =>
        if Ascii.eqb sl1 "/" then
          firstSome (fun '(mm, r3) =>
            match r3 with
            | sl2 :: y1 :: y2 :: y3 :: y4 :: rest =>
                if Ascii.eqb sl2 "/" && allDigits [y1; y2; y3; y4]
                   && boundaryAfterWord rest
                then Some (dd ++ "/"%char :: mm ++ "/"%char :: [y1; y2; y3; y4],
                           (dd, mm, [y1; y2; y3; y4]))
                else None
            | _ => None
            end) (digits12 r2)
        else None
    | [] => None
    end) (digits12 s).

(** [\bword\b] with the [i] flag at the head of [s]: what follows it. *)
Definition wordAt (w : str) (s : str) : option str :=
  if str_eqb (toLowerCase (firstn (length w) s)) w
     && boundaryAfterWord (skipn (length w) s)
  then Some (skipn (length w) s)
  else None.

(** [s.replace(/\bword\b/gi, '')]: [skip] counts the characters of a match
    still to drop. *)
Fixpoint removeWordAll (w : str) (skip : nat) (prevWord : bool) (s : str)
    : str :=
  match s with
  | [] => []
  | c :: r =>
      match skip with
      | S k => removeWordAll w k (isWordChar c) r
      | O =>
          match (if prevWord then None else wordAt w s) with
          | Some _ => removeWordAll w (length w - 1) (isWordChar c) r
          | None => c :: removeWordAll w 0 (isWordChar c) r
          end
      end
  end.

Definition hasWord (w : str) (s : str) : bool :=
  match findBoundary (wordAt w) false s with Some _ => true | None => false end.

Definition parseDateToken (text : str) : option DateRef * str :=
  match findBoundary isoAt false text with
  | Some iso => (Some (Ymd iso), trim (removeFirst iso text))
  | None =>
      match findBoundary slashAt false text with
      | Some (whole, (dd, mm, yyyy)) =>
          (* [new Date(yyyy, mm - 1, dd)] is a valid date for every four-digit
             year and two-digit day and month: the guard always passes. *)
          (Some (Dmy (digitsToZ dd) (digitsToZ mm) (digitsToZ yyyy)),
           trim (removeFirst whole text))
      | None =>
          if hasWord (lit "yesterday") text
          then (Some (DaysFromToday (-1)),
                trim (removeWordAll (lit "yesterday") 0 false text))
          else if hasWord (lit "today") text
          then (Some (DaysFromToday 0),
                trim (removeWordAll (lit "today") 0 false text))
          else (None, text)
      end
  end.


(** *** [extractMetaTokens] *)

(** [(.+)$]: the rest of the token, not empty and free of line
    terminators. *)
Definition dotPlus (v : str) : bool :=
  nonEmpty v && forallb (fun c => negb (isLineTerminator c)) v.

(** [lower.match(/^(?:k1|k2|...):(.+)$/)]: the captured group. *)
Definition matchKeys (keys : list string) (lower : str) : option str :=
  firstSome (fun k =>
    match stripPrefix (lit k ++ lit ":") lower with
    | Some v => if dotPlus v then Some v else None
    | None => None
    end) keys.

(** [lower.match(/^(?:k1|k2|...):(v1|v2|...)$/)]: the value captured, as
    the constant it names. *)
Definition matchEnum {A : Type} (keys : list string)
    (values : list (string * A)) (lower : str) : option A :=
  firstSome (fun k =>
    match stripPrefix (lit k ++ lit ":") lower with
    | Some v => firstSome (fun '(name, a) =>
                  if str_eqb v (lit name) then Some a else None) values
    | None => None
    end) keys.

(** [\d+(?:\.\d+)?] at the head of [s]: integer digits, fraction digits
    and the rest. *)
Definition numeral (s : str) : option (str * str * str) :=
  let (i, r) := spanDigits s in
  if nonEmpty i then
    match r with
    | dot :: r' =>
        let (f, r'') := spanDigits r' in
        if Ascii.eqb dot "." && nonEmpty f then Some (i, f, r'')
        else Some (i, [], r)
    | [] => Some (i, [], r)
    end
  else None.

(** [/^\d+(?:\.\d+)?\/\d+(?:\.\d+)?$/.test(v)], with the two numerals
    [v.split('/')] then yields. *)
Definition ratioToken (v : str) : option ((str * str) * (str * str)) :=
  match numeral v with
  | Some (ai, af, sl :: r) =>
      if Ascii.eqb sl "/" then
        match numeral r with
        | Some (bi, bf, []) => Some ((ai, af), (bi, bf))
        | _ => None
        end
      else None
  | _ => None
  end.

(** [Number.isFinite(a) && Number.isFinite(b) && a > 0 && b > 0] on the two
    numbers of a ratio token. *)
Definition validRatio (a b : Q) : bool :=
  jsIsFinite a && jsIsFinite b && jsIsPositive a && jsIsPositive b.

(** What one token of the loop does. *)
Inductive TokenAction : Type :=
  | SetCard (v : str)
  | SetType (v : EntryType)
  | SetAccount (v : str)
  | SetAsset (v : str)
  | SetLiability (v : str)
  | SetCounterparty (v : str)
  | SetDirection (v : LedgerDirection)
  | SetPaidBy (v : Payer)
  | SetFor (v : str)
  | PushOthers (parts : list str)
  | SetSplit (st : SplitType) (ratio : option (Q * Q))
  | Keep (t : str).

(** The split a ratio text asks for: [ratio] with its two numbers when both
    are valid, else [equal] with the ratio left as it was. *)
Definition splitOfRatio (r : (str * str) * (str * str)) : TokenAction :=
  let a := decimalToQ (fst (fst r)) (snd (fst r)) in
  let b := decimalToQ (fst (snd r)) (snd (snd r)) in
  if validRatio a b then SetSplit SplitRatio (Some (a, b))
  else SetSplit SplitEqual None.

(** The chain of tests of the loop body on token [t], [next] being
    [tokens[i + 1]]; the boolean tells that the next token is consumed. *)
Definition classifyToken (t : str) (next : option str) : TokenAction * bool :=
  let lower := toLowerCase t in
  match matchKeys ["card"]%string lower with
  | Some v => (SetCard v, false)
  | None =>
  match matchEnum ["type"]%string
          [("expense", TExpense); ("income", TIncome);
           ("transfer", TTransfer); ("investment", TInvestment);
           ("liability", TLiability); ("receivable", TReceivable)]%string
          lower with
  | Some v => (SetType v, false)
  | None =>
  match matchKeys ["acct"; "account"]%string lower with
  | Some v => (SetAccount v, false)
  | None =>
  match matchKeys ["asset"; "inv"; "investment"]%string lower with
  | Some v => (SetAsset v, false)
  | None =>
  match matchKeys ["liab"; "liability"]%string lower with
  | Some v => (SetLiability v, false)
  | None =>
  match matchKeys ["cp"; "counterparty"; "person"]%string lower with
  | Some v => (SetCounterparty v, false)
  | None =>
  match matchEnum ["dir"; "direction"]%string
          [("i_lent", ILent); ("i_borrowed", IBorrowed); ("repay", Repay);
           ("collect", Collect)]%string lower with
  | Some v => (SetDirection v, false)
  | None =>
  match matchEnum ["paidby"]%string
          [("me", Me); ("roommate", Roommate)]%string lower with
  | Some v => (SetPaidBy v, false)
  | None =>
  match matchKeys ["for"; "owner"]%string lower with
  | Some v => (SetFor (trim v), false)
  | None =>
  match matchKeys ["other"]%string lower with
  | Some raw =>
      (PushOthers (filterBoolean (map trim (split ","%char raw))), false)
  | None =>
  match matchKeys ["split"]%string lower with
  | Some v =>
      if str_eqb v (lit "equal") then (SetSplit SplitEqual None, false)
      else match ratioToken v with
           | Some r => (splitOfRatio r, false)
           | None => (SetSplit SplitEqual None, false)
           end
  | None =>
      if str_eqb lower (lit "split") then
        match next with
        | Some n =>
            match ratioToken n with
            | Some r => (splitOfRatio r, true)
            | None => (SetSplit SplitEqual None, false)
            end
        | None => (SetSplit SplitEqual None, false)
        end
      else (Keep t, false)
  end end end end end end end end end end end.

(** The variables of the loop. *)
Record MetaAcc : Type := mkAcc {
  a_kept : list str;
  a_card : option str;
  a_paidBy : option Payer;
  a_forPerson : option str;
  a_splitType : SplitType;
  a_splitRatioMe : option Q;
  a_splitRatioOther : option Q;
  a_otherParty : option str;
  a_otherPartiesRaw : list str;
  a_type : option EntryType;
  a_account : option str;
  a_asset : option str;
  a_liability : option str;
  a_counterparty : option str;
  a_direction : option LedgerDirection
}.

Definition initAcc : MetaAcc :=
  mkAcc [] None None None SplitNone None None None [] None None None None
        None None.

(** [x ?? y]. *)
Definition orElse {A : Type} (x y : option A) : option A :=
  match x with Some _ => x | None => y end.

Definition applyAction (act : TokenAction) (a : MetaAcc) : MetaAcc :=
  let '(mkAcc kept card paidBy forPerson splitType rMe rOther otherParty raw
              type account asset liability counterparty direction) := a in
  match act with
  | SetCard v => mkAcc kept (Some v) paidBy forPerson splitType rMe rOther
      otherParty raw type account asset liability counterparty direction
  | SetType v => mkAcc kept card paidBy forPerson splitType rMe rOther
      otherParty raw (Some v) account asset liability counterparty direction
  | SetAccount v => mkAcc kept card paidBy forPerson splitType rMe rOther
      otherParty raw type (Some v) asset liability counterparty direction
  | SetAsset v => mkAcc kept card paidBy forPerson splitType rMe rOther
      otherParty raw type account (Some v) liability counterparty direction
  | SetLiability v => mkAcc kept card paidBy forPerson splitType rMe rOther
      otherParty raw type account asset (Some v) counterparty direction
  | SetCounterparty v => mkAcc kept card paidBy forPerson splitType rMe rOther
      otherParty raw type account asset liability (Some v) direction
  | SetDirection v => mkAcc kept card paidBy forPerson splitType rMe rOther
      otherParty raw type account asset liability counterparty (Some v)
  | SetPaidBy v => mkAcc kept card (Some v) forPerson splitType rMe rOther
      otherParty raw type account asset liability counterparty direction
  | SetFor v => mkAcc kept card paidBy (Some v) splitType rMe rOther
      otherParty raw type account asset liability counterparty direction
  | PushOthers parts => mkAcc kept card paidBy forPerson splitType rMe rOther
      (orElse otherParty (hd_error parts)) (raw ++ parts)
      type account asset liability counterparty direction
  | SetSplit st (Some (x, y)) => mkAcc kept card paidBy forPerson st
      (Some x) (Some y)
      otherParty raw type account asset liability counterparty direction
  | SetSplit st None => mkAcc kept card paidBy forPerson st rMe rOther
      otherParty raw type account asset liability counterparty direction
  | Keep t => mkAcc (kept ++ [t]) card paidBy forPerson splitType rMe rOther
      otherParty raw type account asset liability counterparty direction
  end.

(** The loop over the tokens; a consumed ratio token is skipped. *)
Fixpoint metaLoop (tokens : list str) (a : MetaAcc) : MetaAcc :=
  match tokens with
  | [] => a
  | t :: rest =>
      let (act, consume) := classifyToken t (hd_error rest) in
      let a' := applyAction act a in
      if consume
      then match rest with
           | [] => a'
           | _ :: rest' => metaLoop rest' a'
           end
      else metaLoop rest a'
  end.

(** [map.set(k, v)] on a [Map] kept in insertion order. *)
Fixpoint mapSet (k v : str) (m : list (str * str)) : list (str * str) :=
  match m with
  | [] => [(k, v)]
  | (k', v') :: r =>
      if str_eqb k k' then (k', v) :: r else (k', v') :: mapSet k v r
  end.

(** [new Map(pairs)]. *)
Definition newMap (pairs : list (str * str)) : list (str * str) :=
  fold_left (fun m kv => mapSet (fst kv) (snd kv) m) pairs [].

(** [Array.from(new Map(raw.map(trim).filter(Boolean)
                          .map(s => [s.toLowerCase(), s])).values())]. *)
Definition dedupeParties (raw : list str) : list str :=
  map snd (newMap (map (fun s => (toLowerCase s, s))
                       (filterBoolean (map trim raw)))).

Record Meta : Type := mkMeta {
  m_cleaned : str;
  m_card : option str;
  m_paidBy : option Payer;
  m_forPerson : option str;
  m_splitType : SplitType;
  m_splitRatioMe : option Q;
  m_splitRatioOther : option Q;
  m_otherParty : option str;
  m_otherParties : option (list str);
  m_type : option EntryType;
  m_account : option str;
  m_asset : option str;
  m_liability : option str;
  m_counterparty : option str;
  m_direction : option LedgerDirection
}.

Definition extractMetaTokens (text : str) : Meta :=
  let a := metaLoop (words text) initAcc in
  let otherParties := dedupeParties (a_otherPartiesRaw a) in
  mkMeta (join (a_kept a)) (a_card a) (a_paidBy a) (a_forPerson a)
         (a_splitType a) (a_splitRatioMe a) (a_splitRatioOther a)
         (a_otherParty a)
         (match otherParties with [] => None | _ => Some otherParties end)
         (a_type a) (a_account a) (a_asset a) (a_liability a)
         (a_counterparty a) (a_direction a).


(** *** [parseExpenseMessage] *)

(** As many groups of a comma and three digits as there are: the groups
    matched and the rest. *)
Fixpoint commaGroups (s : str) : str * str :=
  match s with
  | c :: d1 :: d2 :: d3 :: r =>
      if Ascii.eqb c "," && allDigits [d1; d2; d3]
      then (let (g, rest) := commaGroups r in (c :: d1 :: d2 :: d3 :: g, rest))
      else ([], s)
  | _ => ([], s)
  end.

(** What [text.match] reports: [index], the length of [match[0]], and the
    groups [match[1]] and [match[2]]. *)
Record AmountMatch : Type := mkMatch {
  am_index : nat;
  am_length : nat;
  am_int : str;
  am_frac : option str
}.

(** The numeric part of the amount pattern at the head of [s], after a
    prefix of [pre] characters: digits, groups of a comma and three digits,
    and an optional point with one or two digits. *)
Definition numberAt (pre : nat) (s : str) : option AmountMatch :=
  let (ds, r) := spanDigits s in
  if nonEmpty ds then
    let (gs, r') := commaGroups r in
    let int := ds ++ gs in
    match r' with
    | dot :: r'' =>
        match (if Ascii.eqb dot "." then digits12 r'' else []) with
        | (f, _) :: _ =>
            Some (mkMatch 0 (pre + length int + 1 + length f) int (Some f))
        | [] => Some (mkMatch 0 (pre + length int) int None)
        end
    | [] => Some (mkMatch 0 (pre + length int) int None)
    end
  else None.

(** The whole pattern at the head of [s]: an optional dollar sign, or
    [usd] in any case with any white space after it, then the number. *)
Definition amountAt (s : str) : option AmountMatch :=
  match s with
  | c :: r =>
      if Ascii.eqb c "$" then numberAt 1 r
      else if str_eqb (toLowerCase (firstn 3 s)) (lit "usd") then
        let r3 := skipn 3 s in
        let sp := trimStart r3 in
        numberAt (3 + (length r3 - length sp)) sp
      else numberAt 0 s
  | [] => None
  end.

(** [text.match(...)]: the leftmost position where the pattern matches. *)
Fixpoint findAmount (idx : nat) (s : str) : option AmountMatch :=
  match amountAt s with
  | Some m => Some (mkMatch idx (am_length m) (am_int m) (am_frac m))
  | None => match s with
            | [] => None
            | _ :: r => findAmount (S idx) r
            end
  end.

(** [Number(decPart ? intPart + '.' + decPart : intPart)] with the commas of
    [intPart] removed. *)
Definition amountOf (m : AmountMatch) : Q :=
  let intPart := filter (fun c => negb (Ascii.eqb c ",")) (am_int m) in
  match am_frac m with
  | Some f => decimalToQ intPart f
  | None => decimalToQ intPart []
  end.

(** The rupee sign, as its UTF-8 bytes. *)
Definition rupee : str := map ascii_of_nat [226; 130; 185].

(** [STOPWORD.test(t)]. *)
Definition isStopword (t : str) : bool :=
  let l := toLowerCase t in
  isOneOf ["spent"; "spend"; "paid"; "pay"; "for"; "on"; "rs"; "rs.";
           "inr"]%string l
  || str_eqb l rupee.

Definition notStopword (t : str) : bool := negb (isStopword t).

(** [s || undefined]. *)
Definition orUndefined (s : str) : option str :=
  match s with [] => None | _ => Some s end.


(** The tokens from which category and note are read. *)
Definition candidateTokens (text : str) (m : AmountMatch) : list str :=
  let before := trim (firstn (am_index m) text) in
  let after := trim (skipn (am_index m + am_length m) text) in
  let beforeTokens := filter notStopword (words before) in
  let candidateText :=
    collapseSpaces false
      (trim (match beforeTokens with
             | [] => after
             | _ => before ++ " "%char :: after
             end)) in
  filter notStopword (words candidateText).

(** [category] and [note] out of the filtered tokens. *)
Definition categoryAndNote (filtered : list str) : option str * option str :=
  match filtered with
  | [] => (None, None)
  | f :: rest =>
      let first := toLowerCase f in
      if categoryWordsHas first
      then (Some (normalizeCategory first), orUndefined (join rest))
      else (None, orUndefined (join filtered))
  end.

Definition parseExpenseMessage (textRaw : str) : option (Parsed.t Q) :=
  let normalized := normalize textRaw in
  let meta := extractMetaTokens normalized in
  let (occurredOn, text) := parseDateToken (m_cleaned meta) in
  if negb (nonEmpty text) then None
  else
    match findAmount 0 text with
    | None => None
    | Some m =>
        let amount := amountOf m in
        if negb (jsIsFinite amount) || negb (jsIsPositive amount) then None
        else
          let (category, note) := categoryAndNote (candidateTokens text m) in
          Some (Parsed.mk amount None (Some (lit "USD")) occurredOn category
                  note (m_card meta) (m_paidBy meta)
                  (Some (match m_type meta with
                         | Some t => t
                         | None => TExpense
                         end))
                  (m_account meta) (m_asset meta) (m_liability meta)
                  (m_counterparty meta) (m_direction meta)
                  (Some (m_splitType meta)) (m_splitRatioMe meta)
                  (m_splitRatioOther meta) (m_otherParty meta)
                  (m_otherParties meta) (m_forPerson meta))
    end.

End Parser.

Import Parser.


(* ================================================================== *)
(** ** [src/db-pg]: the tables and the repositories *)

Module Expense.
Record t (num : Type) : Type := mk {
  id : str;
  createdAt : nat;
  occurredOn : DateRef;
  source : str;
  fromUser : option str;
  rawText : str;
  amount : num;
  currency : str;
  category : option str;
  note : option str;
  card : option str;
  paidBy : Payer;
  splitType : SplitType;
  splitRatioMe : option num;
  splitRatioOther : option num;
  otherParty : option str;
  myAmount : num
}.
End Expense.

Module Reimbursement.
Record t (num : Type) : Type := mk {
  id : str;
  createdAt : nat;
  occurredOn : DateRef;
  source : str;
  fromUser : option str;
  expenseId : option str;
  otherParty : str;
  direction : DebtDirection;
  amount : num;
  currency : str;
  note : option str;
  rawText : str
}.
End Reimbursement.

Module LedgerEntry.
Record t (num : Type) : Type := mk {
  id : str;
  createdAt : nat;
  occurredOn : DateRef;
  source : str;
  fromUser : option str;
  rawText : str;
  type : EntryType;
  amount : num;
  currency : str;
  direction : option LedgerDirection;
  counterparty : option str;
  account : option str;
  asset : option str;
  liability : option str;
  note : option str
}.
End LedgerEntry.

(** A row of the result of [getReceivableBalances]. *)
Module Balance.
Record t (num : Type) : Type := mk {
  counterparty : str;
  net : num;
  iOwe : num;
  theyOwe : num
}.
End Balance.

Module Repo.

(** The three tables, and the number of rows created so far, from which the
    identifier and the creation time of the next row are drawn (the source
    draws a random UUID and reads the clock). *)
Record Store (num : Type) : Type := mkStore {
  expenses : list (Expense.t num);
  reimbursements : list (Reimbursement.t num);
  ledger_entries : list (LedgerEntry.t num);
  created : nat
}.

Definition emptyStore (num : Type) : Store num := mkStore [] [] [] 0.

Fixpoint digitsOfNat (fuel n : nat) (acc : str) : str :=
  match fuel with
  | O => acc
  | S f =>
      let acc' := ascii_of_nat (48 + n mod 10) :: acc in
      if n / 10 =? 0 then acc' else digitsOfNat f (n / 10) acc'
  end.

(** The identifier of the [n]-th row created. *)
Definition rowId (n : nat) : str := lit "row-" ++ digitsOfNat (S n) n [].

(** [x ?? d]. *)
Definition withDefault {A : Type} (x : option A) (d : A) : A :=
  match x with Some v => v | None => d end.

Section Repositories.
Context {num : Type} {N : Number num}.

(** [insertExpense]: the row inserted and the new store. *)
Definition insertExpense (st : Store num) (text : str) (from : option str)
    (source : str) (parsed : Parsed.t num) (defaultCurrency : str)
    : Expense.t num * Store num :=
  let row :=
    Expense.mk (rowId (created st)) (created st)
      (withDefault (Parsed.occurredOn parsed) (DaysFromToday 0))
      source from text (Parsed.amount parsed)
      (withDefault (Parsed.currency parsed) defaultCurrency)
      (Parsed.category parsed) (Parsed.note parsed) (Parsed.card parsed)
      (withDefault (Parsed.paidBy parsed) Me)
      (withDefault (Parsed.splitType parsed) SplitNone)
      (Parsed.splitRatioMe parsed) (Parsed.splitRatioOther parsed)
      (Parsed.otherParty parsed)
      (withDefault (Parsed.myAmount parsed) (Parsed.amount parsed)) in
  (row, mkStore (expenses st ++ [row]) (reimbursements st)
                (ledger_entries st) (S (created st))).

(** [insertReimbursement]. *)
Definition insertReimbursement (st : Store num) (occurredOn : DateRef)
    (source : str) (from : option str) (expenseId : option str)
    (otherParty : str) (direction : DebtDirection) (amount : num)
    (currency : str) (note : option str) (rawText : str)
    : Reimbursement.t num * Store num :=
  let row :=
    Reimbursement.mk (rowId (created st)) (created st) occurredOn source from
      expenseId otherParty direction amount currency note rawText in
  (row, mkStore (expenses st) (reimbursements st ++ [row])
                (ledger_entries st) (S (created st))).

(** [insertLedgerEntry]. *)
Definition insertLedgerEntry (st : Store num) (occurredOn : DateRef)
    (source : str) (from : option str) (rawText : str) (type : EntryType)
    (amount : num) (currency : str) (direction : option LedgerDirection)
    (counterparty account asset liability note : option str)
    : LedgerEntry.t num * Store num :=
  let row :=
    LedgerEntry.mk (rowId (created st)) (created st) occurredOn source from
      rawText type amount currency direction counterparty account asset
      liability note in
  (row, mkStore (expenses st) (reimbursements st)
                (ledger_entries st ++ [row]) (S (created st))).

(** The arguments of [updateExpenseById] next to [id]; [None] is a [null]
    parameter, which [COALESCE] replaces by the stored value. *)
Record ExpenseUpdate : Type := mkUpdate {
  u_occurredOn : option DateRef;
  u_amount : option num;
  u_myAmount : option num;
  u_category : option str;
  u_note : option str;
  u_card : option str;
  u_paidBy : option Payer;
  u_splitType : option SplitType;
  u_splitRatioMe : option num;
  u_splitRatioOther : option num;
  u_otherParty : option str
}.

(** [COALESCE(p, column)] on a nullable column. *)
Definition coalesce {A : Type} (p old : option A) : option A := orElse p old.

Definition updateRow (u : ExpenseUpdate) (e : Expense.t num) : Expense.t num :=
  Expense.mk (Expense.id e) (Expense.createdAt e)
    (withDefault (u_occurredOn u) (Expense.occurredOn e))
    (Expense.source e) (Expense.fromUser e) (Expense.rawText e)
    (withDefault (u_amount u) (Expense.amount e))
    (Expense.currency e)
    (coalesce (u_category u) (Expense.category e))
    (coalesce (u_note u) (Expense.note e))
    (coalesce (u_card u) (Expense.card e))
    (withDefault (u_paidBy u) (Expense.paidBy e))
    (withDefault (u_splitType u) (Expense.splitType e))
    (coalesce (u_splitRatioMe u) (Expense.splitRatioMe e))
    (coalesce (u_splitRatioOther u) (Expense.splitRatioOther e))
    (coalesce (u_otherParty u) (Expense.otherParty e))
    (withDefault (u_myAmount u) (Expense.myAmount e)).

(** [updateExpenseById]: [UPDATE ... WHERE id = $1 RETURNING ...]; the first
    row returned, if any, and the new store. *)
Definition updateExpenseById (st : Store num) (id : str) (u : ExpenseUpdate)
    : option (Expense.t num) * Store num :=
  let hit e := str_eqb (Expense.id e) id in
  let rows := map (fun e => if hit e then updateRow u e else e)
                  (expenses st) in
  (hd_error (filter hit rows),
   mkStore rows (reimbursements st) (ledger_entries st) (created st)).

(** [DELETE FROM reimbursements WHERE expense_id = $1]. *)
Definition deleteReimbursementsOf (st : Store num) (id : str) : Store num :=
  mkStore (expenses st)
    (filter (fun r => match Reimbursement.expenseId r with
                      | Some e => negb (str_eqb e id)
                      | None => true
                      end) (reimbursements st))
    (ledger_entries st) (created st).

(** [deleteExpenseById]. *)
Definition deleteExpenseById (st : Store num) (id : str)
    : bool * Store num :=
  let st1 := deleteReimbursementsOf st id in
  let hit e := str_eqb (Expense.id e) id in
  (existsb hit (expenses st1),
   mkStore (filter (fun e => negb (hit e)) (expenses st1))
           (reimbursements st1) (ledger_entries st1) (created st1)).

(** *** [getReceivableBalances] *)

(** The [CASE] of the query: what one row adds to the net of its group. *)
Definition signedAmount (e : LedgerEntry.t num) : num :=
  match LedgerEntry.type e, LedgerEntry.direction e with
  | TReceivable, Some ILent => LedgerEntry.amount e
  | TReceivable, Some Collect => nneg (LedgerEntry.amount e)
  | TReceivable, Some IBorrowed => nneg (LedgerEntry.amount e)
  | TReceivable, Some Repay => LedgerEntry.amount e
  | _, _ => nzero
  end.

Definition isReceivable (t : EntryType) : bool :=
  match t with TReceivable => true | _ => false end.

(** The [WHERE] clause: the group key of a row that passes it. *)
Definition receivableKey (currency : str) (e : LedgerEntry.t num)
    : option str :=
  if str_eqb (LedgerEntry.currency e) currency
     && isReceivable (LedgerEntry.type e)
  then match LedgerEntry.counterparty e with
       | Some c => if nonEmpty c then Some c else None
       | None => None
       end
  else None.

(** The order of [ORDER BY counterparty ASC], taken byte by byte. *)
Fixpoint strLtb (a b : str) : bool :=
  match a, b with
  | [], [] => false
  | [], _ :: _ => true
  | _ :: _, [] => false
  | x :: a', y :: b' =>
      if code x <? code y then true
      else if code y <? code x then false
      else strLtb a' b'
  end.

(** [ORDER BY counterparty ASC]. *)
Fixpoint insertKey (k : str) (l : list str) : list str :=
  match l with
  | [] => [k]
  | x :: r => if strLtb x k then x :: insertKey k r else k :: l
  end.

Definition sortKeys (l : list str) : list str := fold_right insertKey [] l.

(** [GROUP BY counterparty]: the distinct keys of the rows that pass the
    [WHERE] clause, in order. *)
Definition groupKeys (currency : str) (rows : list (LedgerEntry.t num))
    : list str :=
  sortKeys
    (nodup (list_eq_dec ascii_dec)
       (flat_map (fun e => match receivableKey currency e with
                           | Some k => [k]
                           | None => []
                           end) rows)).

(** The rows of one group. *)
Definition groupRows (currency k : str) (rows : list (LedgerEntry.t num))
    : list (LedgerEntry.t num) :=
  filter (fun e => match receivableKey currency e with
                   | Some k' => str_eqb k' k
                   | None => false
                   end) rows.

(** [COALESCE(SUM(CASE ... END), 0)] over one group. *)
Definition groupNet (currency k : str) (rows : list (LedgerEntry.t num))
    : num :=
  fold_left (fun acc e => nadd acc (signedAmount e))
            (groupRows currency k rows) nzero.

Definition getReceivableBalances (st : Store num) (currency : str)
    : list (Balance.t num) :=
  map (fun c =>
         let net := groupNet currency c (ledger_entries st) in
         Balance.mk c net
           (if nltb net nzero then nneg net else nzero)
           (if nltb nzero net then net else nzero))
      (groupKeys currency (ledger_entries st)).

End Repositories.
End Repo.

Import Repo.

(* ================================================================== *)
(** ** [src/app.ts]: the handlers *)

Module App.

(** The body of a response. *)
Inductive Body (num : Type) : Type :=
  | ErrorJson (error : str)
  | PlainText (text : str)
  | ExpenseJson (expense : Expense.t num)
  | EntryJson (entry : LedgerEntry.t num).

Arguments ErrorJson {num} error.
Arguments PlainText {num} text.

Record Response (num : Type) : Type := mkResponse {
  status : nat;
  body : Body num
}.

(** A peer debt still to be inserted: party, direction and amount. *)
Definition Debt (num : Type) : Type := (str * DebtDirection * num)%type.

Definition CURRENCY : str := lit "USD".

Section Handlers.
Context {num : Type} {N : Number num}.

(** [parseExpenseMessage(text)], its numbers as the interpreter holds
    them. *)
Definition parseMessage (text : str) : option (Parsed.t num) :=
  option_map (Parsed.mapNum ofDecimal) (parseExpenseMessage text).

(** A string is truthy when it is not empty. *)
Definition truthy (o : option str) : bool :=
  match o with Some s => nonEmpty s | None => false end.

(** [(parsed.otherParties?.length ? parsed.otherParties
      : parsed.otherParty ? [parsed.otherParty] : fallback)
     .map((s) => String(s).trim()).filter(Boolean)]. *)
Definition partiesOr (fallback : list str) (parsed : Parsed.t num)
    : list str :=
  filterBoolean
    (map trim
       (match Parsed.otherParties parsed with
        | Some (x :: l) => x :: l
        | _ => if truthy (Parsed.otherParty parsed)
               then match Parsed.otherParty parsed with
                    | Some o => [o]
                    | None => []
                    end
               else fallback
        end)).

(** [n || 1] on a length. *)
Definition orOne (n : nat) : nat := match n with O => 1 | _ => n end.

(** [splitType === 'ratio' && typeof ratioMe === 'number' &&
     typeof ratioOther === 'number' && ratioMe > 0 && ratioOther > 0]:
    the two ratio numbers when the test passes. *)
Definition ratioOf (splitType : SplitType) (ratioMe ratioOther : option num)
    : option (num * num) :=
  match splitType, ratioMe, ratioOther with
  | SplitRatio, Some a, Some b =>
      if nltb nzero a && nltb nzero b then Some (a, b) else None
  | _, _, _ => None
  end.

(** The block "Compute my share" of both handlers: the value stored into
    [parsed.myAmount]. *)
Definition computeMyShare (parsed : Parsed.t num) : num :=
  let splitType := withDefault (Parsed.splitType parsed) SplitNone in
  let others := partiesOr [] parsed in
  match splitType with
  | SplitNone => Parsed.amount parsed
  | _ =>
      let nOthers := orOne (length others) in
      match ratioOf splitType (Parsed.splitRatioMe parsed)
                    (Parsed.splitRatioOther parsed) with
      | Some (ratioMe, ratioOther) =>
          let total := nadd ratioMe ratioOther in
          ndiv (nmul (Parsed.amount parsed) ratioMe) total
      | None => ndiv (Parsed.amount parsed) (ofNat (1 + nOthers))
      end
  end.

Definition setMyAmount (v : num) (p : Parsed.t num) : Parsed.t num :=
  Parsed.mk (Parsed.amount p) (Some v) (Parsed.currency p)
    (Parsed.occurredOn p) (Parsed.category p) (Parsed.note p) (Parsed.card p)
    (Parsed.paidBy p) (Parsed.type p) (Parsed.account p) (Parsed.asset p)
    (Parsed.liability p) (Parsed.counterparty p) (Parsed.direction p)
    (Parsed.splitType p) (Parsed.splitRatioMe p) (Parsed.splitRatioOther p)
    (Parsed.otherParty p) (Parsed.otherParties p) (Parsed.forPerson p).

Definition setOccurredOn (d : DateRef) (p : Parsed.t num) : Parsed.t num :=
  Parsed.mk (Parsed.amount p) (Parsed.myAmount p) (Parsed.currency p)
    (Some d) (Parsed.category p) (Parsed.note p) (Parsed.card p)
    (Parsed.paidBy p) (Parsed.type p) (Parsed.account p) (Parsed.asset p)
    (Parsed.liability p) (Parsed.counterparty p) (Parsed.direction p)
    (Parsed.splitType p) (Parsed.splitRatioMe p) (Parsed.splitRatioOther p)
    (Parsed.otherParty p) (Parsed.otherParties p) (Parsed.forPerson p).

(** The block [if (parsed.forPerson) { ... }] of both handlers. *)
Definition applyForPerson (p : Parsed.t num) : Parsed.t num :=
  match Parsed.forPerson p with
  | Some f =>
      if nonEmpty f then
        Parsed.mk (Parsed.amount p) (Some nzero) (Parsed.currency p)
          (Parsed.occurredOn p) (Parsed.category p) (Parsed.note p)
          (Parsed.card p) (Parsed.paidBy p) (Parsed.type p) (Parsed.account p)
          (Parsed.asset p) (Parsed.liability p) (Parsed.counterparty p)
          (Parsed.direction p) (Some SplitNone) (Parsed.splitRatioMe p)
          (Parsed.splitRatioOther p)
          (orElse (Parsed.otherParty p) (Some f))
          (match Parsed.otherParties p with
           | Some (x :: l) => Some (x :: l)
           | _ => Some [f]
           end)
          (Parsed.forPerson p)
      else p
  | None => p
  end.

(** What both handlers do to the parsed message before they store it. *)
Definition allocate (parsed : Parsed.t num) : Parsed.t num :=
  applyForPerson (setMyAmount (computeMyShare parsed) parsed).

(** [myShare] of the block "Split math". *)
Definition splitMyShare (parsed : Parsed.t num) (amount : num)
    (nOthers : nat) : num :=
  match ratioOf (withDefault (Parsed.splitType parsed) SplitNone)
                (Parsed.splitRatioMe parsed)
                (Parsed.splitRatioOther parsed) with
  | Some (ratioMe, ratioOther) =>
      ndiv (nmul amount ratioMe) (nadd ratioMe ratioOther)
  | None => ndiv amount (ofNat (1 + orOne nOthers))
  end.

(** [eachOtherShare] of the block "Split math". *)
Definition splitEachOtherShare (parsed : Parsed.t num) (amount : num)
    (nOthers : nat) : num :=
  let othersTotal := nsub amount (splitMyShare parsed amount nOthers) in
  if 0 <? nOthers then ndiv othersTotal (ofNat nOthers) else othersTotal.

(** The peer debts both handlers insert for the message [parsed] (after
    [allocate]) stored with the amount [amount], in the order of
    insertion. *)
Definition peerDebts (parsed : Parsed.t num) (amount : num)
    : list (Debt num) :=
  let otherParties := partiesOr [lit "vyas"] parsed in
  let otherParty := withDefault (hd_error otherParties) (lit "vyas") in
  let paidBy := withDefault (Parsed.paidBy parsed) Me in
  let splitType := withDefault (Parsed.splitType parsed) SplitNone in
  if truthy (Parsed.forPerson parsed) then
    let p := withDefault (hd_error otherParties)
               (withDefault (Parsed.forPerson parsed) []) in
    match paidBy with
    | Me => [(p, TheyOweMe, amount)]
    | Roommate => [(p, IOweThem, amount)]
    end
  else
    match splitType with
    | SplitNone => []
    | _ =>
        let nOthers := length otherParties in
        match paidBy with
        | Me => map (fun p => (p, TheyOweMe,
                               splitEachOtherShare parsed amount nOthers))
                    otherParties
        | Roommate => [(otherParty, IOweThem,
                        splitMyShare parsed amount nOthers)]
        end
    end.

(** The debt a reimbursement row records. *)
Definition debtOf (r : Reimbursement.t num) : Debt num :=
  (Reimbursement.otherParty r, Reimbursement.direction r,
   Reimbursement.amount r).

(** The calls of [insertReimbursement], one for each debt. *)
Fixpoint insertDebts (st : Store num) (e : Expense.t num)
    (from : option str) (text : str) (debts : list (Debt num))
    : Store num :=
  match debts with
  | [] => st
  | (party, direction, amount) :: rest =>
      let (_, st') :=
        insertReimbursement st (Expense.occurredOn e) (Expense.source e)
          from (Some (Expense.id e)) party direction amount
          (Expense.currency e) (Expense.note e) text in
      insertDebts st' e from text rest
  end.

Definition couldNotParse : str := lit "Could not parse amount from message".

(** [POST /api/ingest-message].  [text] is [None] when the body fails the
    schema; the totals of the acknowledgement, read from the store after the
    inserts, are left out of the response. *)
Definition ingestMessage (st : Store num) (text : option str)
    (from source : option str) (wantsPlainText : bool)
    : Response num * Store num :=
  match text with
  | None => (mkResponse 400 (ErrorJson (lit "Invalid body")), st)
  | Some [] => (mkResponse 400 (ErrorJson (lit "Invalid body")), st)
  | Some text =>
      match parseMessage text with
      | None =>
          (mkResponse 200 (if wantsPlainText then PlainText couldNotParse
                           else ErrorJson couldNotParse), st)
      | Some parsed0 =>
          let parsed := allocate parsed0 in
          let (expense, st1) :=
            insertExpense st text from (withDefault source (lit "message"))
                          parsed CURRENCY in
          let st2 := insertDebts st1 expense from text
                       (peerDebts parsed (Expense.amount expense)) in
          (mkResponse 200 (ExpenseJson expense), st2)
      end
  end.

(** [PUT /api/expenses/:id]. *)
Definition putExpense (st : Store num) (idParam : str)
    (bodyText bodyOccurredOn : option str) : Response num * Store num :=
  let id := trim idParam in
  if negb (nonEmpty id)
  then (mkResponse 400 (ErrorJson (lit "Missing id")), st)
  else
    let text := withDefault bodyText [] in
    let occurredOn := withDefault bodyOccurredOn [] in
    match parseMessage text with
    | None => (mkResponse 400 (ErrorJson couldNotParse), st)
    | Some parsed0 =>
        let parsed1 := if nonEmpty occurredOn
                       then setOccurredOn (Ymd occurredOn) parsed0
                       else parsed0 in
        let parsed := allocate parsed1 in
        let otherParties := partiesOr [lit "vyas"] parsed in
        let otherParty := withDefault (hd_error otherParties) (lit "vyas") in
        let paidBy := withDefault (Parsed.paidBy parsed) Me in
        let splitType := withDefault (Parsed.splitType parsed) SplitNone in
        match updateExpenseById st id
                (mkUpdate (Parsed.occurredOn parsed)
                   (Some (Parsed.amount parsed))
                   (Some (withDefault (Parsed.myAmount parsed)
                                      (Parsed.amount parsed)))
                   (Parsed.category parsed) (Parsed.note parsed)
                   (Parsed.card parsed) (Some paidBy) (Some splitType)
                   (Parsed.splitRatioMe parsed)
                   (Parsed.splitRatioOther parsed) (Some otherParty)) with
        | (None, st1) => (mkResponse 404 (ErrorJson (lit "Not found")), st1)
        | (Some updated, st1) =>
            let st2 := deleteReimbursementsOf st1 id in
            let st3 := insertDebts st2 updated (Expense.fromUser updated)
                         text (peerDebts parsed (Expense.amount updated)) in
            (mkResponse 200 (ExpenseJson updated), st3)
        end
    end.

Definition allowedLedgerType (t : EntryType) : bool :=
  match t with TExpense => false | _ => true end.

Definition typeName (t : EntryType) : str :=
  lit (match t with
       | TExpense => "expense" | TIncome => "income"
       | TTransfer => "transfer" | TInvestment => "investment"
       | TLiability => "liability" | TReceivable => "receivable"
       end).

(** [POST /api/ledger]. *)
Definition postLedger (st : Store num) (bodyText bodyFrom : option str)
    : Response num * Store num :=
  let text := withDefault bodyText [] in
  if negb (nonEmpty (trim text))
  then (mkResponse 400 (ErrorJson (lit "Missing text")), st)
  else
    match parseMessage text with
    | None => (mkResponse 400 (ErrorJson couldNotParse), st)
    | Some parsed =>
        let type := withDefault (Parsed.type parsed) TIncome in
        if negb (allowedLedgerType type)
        then (mkResponse 400
                (ErrorJson (lit "Unsupported ledger type: " ++ typeName type)),
              st)
        else if isReceivable type && negb (truthy (Parsed.counterparty parsed))
        then (mkResponse 400
                (ErrorJson (lit "Missing counterparty (use counterparty:<name>)")),
              st)
        else if isReceivable type
                && match Parsed.direction parsed with
                   | Some _ => false
                   | None => true
                   end
        then (mkResponse 400
                (ErrorJson (lit "Missing direction (use direction:i_borrowed|i_lent|repay|collect)")),
              st)
        else
          let (entry, st') :=
            insertLedgerEntry st
              (withDefault (Parsed.occurredOn parsed) (DaysFromToday 0))
              (lit "message") bodyFrom text type (Parsed.amount parsed)
              (withDefault (Parsed.currency parsed) CURRENCY)
              (Parsed.direction parsed) (Parsed.counterparty parsed)
              (Parsed.account parsed) (Parsed.asset parsed)
              (Parsed.liability parsed) (Parsed.note parsed) in
          (mkResponse 200 (EntryJson entry), st')
    end.

End Handlers.
End App.

Import App.

(* ================================================================== *)
(** ** Reference definitions, in the words of the specification *)

Module Spec.

(** The receivable entries of one counterparty in one currency with one
    direction. *)
Definition entriesOf (currency c : str) (d : LedgerDirection)
    (rows : list (LedgerEntry.t Q)) : list (LedgerEntry.t Q) :=
  filter (fun e =>
            isReceivable (LedgerEntry.type e)
            && str_eqb (LedgerEntry.currency e) currency
            && match LedgerEntry.counterparty e with
               | Some c' => str_eqb c' c
               | None => false
               end
            && match LedgerEntry.direction e, d with
               | Some ILent, ILent | Some IBorrowed, IBorrowed
               | Some Repay, Repay | Some Collect, Collect => true
               | _, _ => false
               end) rows.

(** [sum(direction)]: the sum of the amounts of those entries. *)
Definition sumOf (currency c : str) (d : LedgerDirection)
    (rows : list (LedgerEntry.t Q)) : Q :=
  fold_right (fun e acc => (LedgerEntry.amount e + acc)%Q) 0%Q
             (entriesOf currency c d rows).

(** [net = sum(i_lent) - sum(collect) - sum(i_borrowed) + sum(repay)]. *)
Definition netOf (currency c : str) (rows : list (LedgerEntry.t Q)) : Q :=
  (sumOf currency c ILent rows - sumOf currency c Collect rows
   - sumOf currency c IBorrowed rows + sumOf currency c Repay rows)%Q.

(** What the tests of the repository look at in a parsed message. *)
Definition amountCategoryNote (o : option (Parsed.t Q))
    : option (Q * option str * option str) :=
  option_map (fun p => (Parsed.amount p, Parsed.category p, Parsed.note p)) o.

(** *** The amount pattern *)







(** *** The category vocabulary *)







(** A list without its repetitions: every element stays where it is first
    seen, its later copies go. *)
Fixpoint dedupFirst (l : list str) : list str :=
  match l with
  | [] => []
  | x :: r => x :: filter (fun y => negb (str_eqb y x)) (dedupFirst r)
  end.

(** The counterparty has a receivable entry in the currency. *)
Definition hasReceivable (currency c : str) (rows : list (LedgerEntry.t Q))
    : Prop :=
  exists e, In e rows /\ LedgerEntry.type e = TReceivable
            /\ LedgerEntry.currency e = currency
            /\ LedgerEntry.counterparty e = Some c.

End Spec.

(* ================================================================== *)
(** ** Invariants of the parser *)

Module Inv.

(** The text does not start with white space. *)
Definition startsClean (s : str) : Prop :=
  match s with [] => True | c :: _ => isSpace c = false end.

(** A name is clean when trimming leaves it as it is and it is not empty:
    the handlers keep it when they trim and filter the parties. *)
Definition cleanName (s : str) : Prop := trim s = s /\ s <> [].

(** The text has no white space. *)
Definition noSpace (s : str) : Prop := Forall (fun c => isSpace c = false) s.

(** The text has no upper-case letter. *)
Definition lowered (s : str) : Prop := Forall (fun c => isUpper c = false) s.



(** What the loop keeps true of its variables. *)
Record accOk (a : MetaAcc) : Prop := mkAccOk {
  ok_raw : Forall cleanName (a_otherPartiesRaw a);
  ok_low : Forall lowered (a_otherPartiesRaw a);
  ok_first : a_otherParty a = hd_error (a_otherPartiesRaw a);
  ok_for : forall f, a_forPerson a = Some f -> trim f = f /\ f <> []
}.

(** What the parser guarantees of the message it returns. *)
Record parsedOk (p : Parsed.t Q) : Prop := mkParsedOk {
  p_amount : (0 < Parsed.amount p)%Q;
  p_parties : forall l, Parsed.otherParties p = Some l ->
                l <> [] /\ Forall cleanName l
                /\ Parsed.otherParty p = hd_error l;
  p_no_parties : Parsed.otherParties p = None -> Parsed.otherParty p = None;
  p_for : forall f, Parsed.forPerson p = Some f -> trim f = f /\ f <> [];
  p_my : Parsed.myAmount p = None;
  p_split : Parsed.splitType p <> None
}.

End Inv.

Import Inv.

(* ================================================================== *)
(** ** [src/db-pg]: the queries that read the tables *)

(** The result of [sumAllTime]. *)
Module Totals.
Record t (num : Type) : Type := mk {
  count : nat;
  total : num
}.
End Totals.

(** The result of [getLedgerTotals]. *)
Module LedgerTotals.
Record t (num : Type) : Type := mk {
  incomeTotal : num;
  savingsTotal : num;
  investmentTotal : num;
  liabilityTotal : num
}.
End LedgerTotals.

(** The result of [getReimbursementBalance]. *)
Module ReimbursementBalance.
Record t (num : Type) : Type := mk {
  theyOweMe : num;
  iOweThem : num;
  net : num
}.
End ReimbursementBalance.

Module Queries.



Section Queries.
Context {num : Type} {N : Number num}.

(** [COALESCE(SUM(x), 0)] over the rows selected.  The database adds
    [NUMERIC] values exactly; the sum is read here with the addition of the
    number structure, which is exact on [Q], where the statements about the
    sums are made. *)
Definition sqlSum (xs : list num) : num := fold_left nadd xs nzero.







(** [listOtherParties]: [SELECT DISTINCT other_party ... ORDER BY
    other_party ASC]. *)
Definition listOtherParties (st : Store num) (currency : option str)
    : list str :=
  sortKeys
    (nodup (list_eq_dec ascii_dec)
       (map (@Reimbursement.otherParty num)
            (filter (fun r => if truthy currency
                              then str_eqb (Reimbursement.currency r)
                                           (withDefault currency [])
                              else true)
                    (reimbursements st)))).

End Queries.
End Queries.

Import Queries.

(* ================================================================== *)
(** ** [src/app.ts]: the other routes *)

(** The part of the answer of [GET /api/summary] that does not depend on
    the clock. *)
Module Summary.
Record t (num : Type) : Type := mk {
  allTime : Totals.t num;
  reimbursementBalance : ReimbursementBalance.t num;
  ledger : LedgerTotals.t num;
  netWorth : num;
  receivables : list (Balance.t num)
}.
End Summary.

Module Routes.

(** The answer of a route that sends no row back: [{ ok: true }], or a
    status with [{ ok: false, error }]. *)
Inductive Reply : Type :=
  | Done
  | Refused (status : nat) (error : str).

Section Routes.
Context {num : Type} {N : Number num}.

(** [DELETE /api/expenses/:id]. *)
Definition deleteExpense (st : Store num) (idParam : str)
    : Reply * Store num :=
  let id := trim idParam in
  if negb (nonEmpty id)
  then (Refused 400 (lit "Missing id"), st)
  else
    let (deleted, st') := deleteExpenseById st id in
    if deleted then (Done, st')
    else (Refused 404 (lit "Not found"), st').



(** [GET /api/reimbursements/parties]. *)
Definition getParties (st : Store num) : list str :=
  listOtherParties st (Some CURRENCY).

End Routes.
End Routes.

Import Routes.

(* ================================================================== *)
(** ** [src/app.ts]: the guard of the API key *)

Module Auth.






End Auth.

Import Auth.

(* ================================================================== *)
(** ** [src/app.ts]: the WhatsApp webhook *)

Module WhatsApp.

(** A body that [WhatsAppWebhookSchema] accepts, with the keys the schema
    names. *)
Record Message : Type := mkMessage {
  msg_from : option str;
  (** [text?: { body?: string }] *)
  msg_text : option (option str)
}.

Record Value : Type := mkValue { messages : option (list Message) }.

Record Change : Type := mkChange { value : option Value }.

Record Entry : Type := mkEntry { changes : option (list Change) }.

Record WebhookBody : Type := mkWebhookBody {
  b_text : option str;
  b_from : option str;
  b_Body : option str;
  b_From : option str;
  b_entry : option (list Entry)
}.

(** [x?.[0]] on an optional array. *)
Definition first {A : Type} (xs : option (list A)) : option A :=
  match xs with
  | Some (x :: _) => Some x
  | _ => None
  end.

(** [x?.field]. *)
Definition andThen {A B : Type} (x : option A) (f : A -> option B)
    : option B :=
  match x with
  | Some a => f a
  | None => None
  end.

(** [extractWhatsAppLikeMessage]; the body is [None] when the schema
    rejects it.  The result is the pair of [text] and [from]. *)
Definition extractWhatsAppLikeMessage (body : option WebhookBody)
    : option str * option str :=
  match body with
  | None => (None, None)
  | Some b =>
      let directText := orElse (b_text b) (b_Body b) in
      let directFrom := orElse (b_from b) (b_From b) in
      if truthy directText then (directText, directFrom)
      else
        let msg :=
          first (andThen (andThen (first (andThen (first (b_entry b))
                                                  changes))
                                  value)
                         messages) in
        let metaText := andThen (andThen msg msg_text) (fun body => body) in
        let metaFrom := andThen msg msg_from in
        (metaText, metaFrom)
  end.

(** [s.includes(part)]. *)
Fixpoint includes (part s : str) : bool :=
  match stripPrefix part s with
  | Some _ => true
  | None => match s with
            | [] => false
            | _ :: r => includes part r
            end
  end.

(** [wantsPlainText], on the [format] of the query and the [accept]
    header. *)
Definition wantsPlainText (format accept : option str) : bool :=
  str_eqb (toLowerCase (withDefault format [])) (lit "text")
  || includes (lit "text/plain") (toLowerCase (withDefault accept [])).

(** The characters of [[a-f0-9]] under the flag [i]. *)
Definition isHex (c : ascii) : bool :=
  isDigit c
  || (let n := code (toLowerChar c) in (97 <=? n) && (n <=? 102)).

Definition hexVal (c : ascii) : nat :=
  if isDigit c then code c - 48 else code (toLowerChar c) - 87.

(** [Buffer.from(s, 'hex')]: the bytes of the pairs of hexadecimal digits,
    up to the first pair that is not one. *)
Fixpoint hexBytes (s : str) : list nat :=
  match s with
  | a :: b :: r =>
      if isHex a && isHex b then (16 * hexVal a + hexVal b) :: hexBytes r
      else []
  | _ => []
  end.

(** The answers of the webhook.  An acknowledgement stands for the message
    of [computeAckMessage] about the expense, sent as text or inside the
    JSON answer; its numbers are not printed here. *)
Inductive Answer (num : Type) : Type :=
  | Text (status : nat) (text : str)
  | Failure (status : nat) (error : str)
  | AckText (expense : Expense.t num)
  | AckJson (expense : Expense.t num).

Arguments Text {num} status text.
Arguments Failure {num} status error.

Section Webhook.
Context {num : Type} {N : Number num}.

(** [crypto.createHmac('sha256', secret).update(rawBody, 'utf8')
     .digest('hex')], which the runtime provides. *)
Variable hmacSha256Hex : str -> str -> str.

(** [verifyMetaSignatureIfConfigured], on the secret of the environment,
    the header [x-hub-signature-256] and the body as it was signed. *)
Definition verifyMetaSignatureIfConfigured (WHATSAPP_APP_SECRET : option str)
    (signature : option str) (rawBody : str) : bool :=
  if negb (truthy WHATSAPP_APP_SECRET) then true
  else
    let header := withDefault signature [] in
    let hex := skipn 7 header in
    if str_eqb (toLowerCase (firstn 7 header)) (lit "sha256=")
       && (length hex =? 64) && forallb isHex hex
    then
      let expected := hexBytes hex in
      let actual :=
        hexBytes (hmacSha256Hex (withDefault WHATSAPP_APP_SECRET [])
                                rawBody) in
      if length expected =? length actual
      then if list_eq_dec Nat.eq_dec expected actual then true else false
      else false
    else false.

(** [POST /webhook/whatsapp].  [rawBody] is [JSON.stringify(req.body ?? {})]
    and [body] what the schema makes of the body. *)
Definition postWhatsapp (st : Store num) (WHATSAPP_APP_SECRET : option str)
    (signature : option str) (rawBody : str) (body : option WebhookBody)
    (format accept : option str) : Answer num * Store num :=
  let plain := wantsPlainText format accept in
  if truthy WHATSAPP_APP_SECRET
     && negb (verifyMetaSignatureIfConfigured WHATSAPP_APP_SECRET signature
                                              rawBody)
  then ((if plain then Text 401 (lit "Invalid signature")
         else Failure 401 (lit "Invalid signature")), st)
  else
    let extracted := extractWhatsAppLikeMessage body in
    if negb (truthy (fst extracted))
    then ((if plain then Text 400 (lit "Missing message text")
           else Failure 400 (lit "Missing message text")), st)
    else
      let text := withDefault (fst extracted) [] in
      match parseMessage text with
      | None =>
          ((if plain then Text 200 couldNotParse
            else Failure 200 couldNotParse), st)
      | Some parsed =>
          let (expense, st') :=
            insertExpense st text (snd extracted) (lit "whatsapp") parsed
                          CURRENCY in
          if plain
             || negb (includes (lit "application/json")
                               (toLowerCase (withDefault accept [])))
          then (AckText expense, st')
          else (AckJson expense, st')
      end.

End Webhook.

End WhatsApp.

Import WhatsApp.

(* ================================================================== *)
(** ** Reference sums, for the statements about the queries *)

Module Ref.

(** The plain sum of a list of rationals. *)
Definition qsum (l : list Q) : Q := fold_right Qplus 0%Q l.









(** Every reimbursement that names an expense names an expense of the
    table. *)
Definition linked {num : Type} (st : Store num) : Prop :=
  forall r id, In r (reimbursements st) ->
               Reimbursement.expenseId r = Some id ->
               exists e, In e (expenses st) /\ Expense.id e = id.

End Ref.

(* ================================================================== *)
(** ** A sample store *)

(** A store with one expense, paid by the roommate and split in two, and
    the reimbursement that goes with it. *)
Definition sharedRoom : Store Q :=
  snd (ingestMessage (emptyStore Q)
         (Some (lit "room 300 paidby:roommate other:vyas split:equal"))
         None None false).


(* ================================================================== *)
(** * Properties *)

(** ** Rationals *)

Arguments Qred : simpl never.

Lemma QltBool_true (a b : Q) : QltBool a b = true <-> (a < b)%Q.
Proof. unfold QltBool, Qlt. apply Z.ltb_lt. Qed.

Lemma QltBool_false (a b : Q) : QltBool a b = false <-> (b <= a)%Q.
Proof. unfold QltBool, Qle. rewrite Z.ltb_ge. reflexivity. Qed.

(** ** Strings *)

Lemma str_eqb_eq (a b : str) : str_eqb a b = true <-> a = b.
Proof.
  unfold str_eqb. destruct (list_eq_dec ascii_dec a b); split;
    congruence.
Qed.

Lemma str_eqb_refl (a : str) : str_eqb a a = true.
Proof. apply str_eqb_eq. reflexivity. Qed.

Lemma str_eqb_neq (a b : str) : str_eqb a b = false <-> a <> b.
Proof.
  unfold str_eqb. destruct (list_eq_dec ascii_dec a b); split;
    congruence.
Qed.

(** Unfolds the arithmetic of the exact number structure. *)
Ltac exact_numbers :=
  cbn [nadd nsub nmul ndiv nneg nzero nltb ofNat ofDecimal NumberQ] in *.

(** ** The receivable balances *)

Section ReceivableBalances.
Local Open Scope Q_scope.

Variable currency : str.

Lemma insertKey_perm (k : str) (l : list str) :
  Permutation (insertKey k l) (k :: l).
Proof.
  induction l as [|x r IH]; simpl.
  - apply Permutation_refl.
  - destruct (strLtb x k).
    + eapply perm_trans; [apply perm_skip, IH | apply perm_swap].
    + apply Permutation_refl.
Qed.

Lemma sortKeys_perm (l : list str) : Permutation (sortKeys l) l.
Proof.
  induction l as [|x r IH]; simpl.
  - apply perm_nil.
  - eapply perm_trans; [apply insertKey_perm | apply perm_skip, IH].
Qed.

Lemma groupKeys_In (k : str) (rows : list (LedgerEntry.t Q)) :
  In k (groupKeys currency rows) <->
  exists e, In e rows /\ receivableKey currency e = Some k.
Proof.
  unfold groupKeys. split.
  - intros H. apply (Permutation_in _ (sortKeys_perm _)) in H.
    apply nodup_In in H. apply in_flat_map in H.
    destruct H as [e [He Hk]]. exists e. split; [exact He|].
    destruct (receivableKey currency e); simpl in Hk; [|contradiction].
    destruct Hk as [->|[]]. reflexivity.
  - intros [e [He Hk]].
    apply (Permutation_in _ (Permutation_sym (sortKeys_perm _))).
    apply nodup_In. apply in_flat_map. exists e. split; [exact He|].
    rewrite Hk. left. reflexivity.
Qed.

Lemma groupKeys_NoDup (rows : list (LedgerEntry.t Q)) :
  NoDup (groupKeys currency rows).
Proof.
  unfold groupKeys.
  eapply Permutation_NoDup; [apply Permutation_sym, sortKeys_perm|].
  apply NoDup_nodup.
Qed.

Lemma receivableKey_Some (e : LedgerEntry.t Q) (k : str) :
  receivableKey currency e = Some k <->
  LedgerEntry.type e = TReceivable /\ LedgerEntry.currency e = currency
  /\ LedgerEntry.counterparty e = Some k /\ k <> [].
Proof.
  unfold receivableKey.
  destruct (str_eqb (LedgerEntry.currency e) currency) eqn:Hc; simpl.
  - apply str_eqb_eq in Hc.
    destruct (LedgerEntry.type e); simpl;
      try (split; [discriminate | intros [H _]; discriminate]).
    destruct (LedgerEntry.counterparty e) as [c|];
      [|split; [discriminate | intros (_ & _ & H & _); discriminate]].
    destruct c as [|x c]; simpl.
    + split; [discriminate|]. intros (_ & _ & H & Hk). congruence.
    + split.
      * intros H. injection H as <-. repeat split; try assumption.
        discriminate.
      * intros (_ & _ & H & _). exact H.
  - apply str_eqb_neq in Hc.
    split; [discriminate | intros (_ & H & _); contradiction].
Qed.

Lemma fold_net (f : LedgerEntry.t Q -> Q) (l : list (LedgerEntry.t Q)) (a : Q) :
  fold_left (fun acc e => nadd acc (f e)) l a
  == a + fold_right (fun e acc => f e + acc) 0 l.
Proof.
  revert a. induction l as [|e l IH]; intros a; simpl.
  - ring.
  - rewrite IH. exact_numbers. rewrite Qred_correct. ring.
Qed.

Lemma signed_split (c : str) (rows : list (LedgerEntry.t Q)) :
  c <> [] ->
  fold_right (fun e acc => signedAmount e + acc) 0
             (groupRows currency c rows)
  == Spec.netOf currency c rows.
Proof.
  intros Hc. unfold Spec.netOf, Spec.sumOf, Spec.entriesOf, groupRows.
  induction rows as [|e rows IH]; simpl; [ring|].
  destruct e as [id cr occ src fu raw ty am cur dir cp acct ass liab note].
  unfold receivableKey, signedAmount; simpl.
  destruct (str_eqb cur currency); simpl;
    [|rewrite ?andb_false_r; simpl; exact IH].
  destruct ty; simpl; try exact IH.
  destruct cp as [c'|]; simpl; [|exact IH].
  destruct (str_eqb c' c) eqn:Hcc.
  - apply str_eqb_eq in Hcc. subst c'.
    destruct c as [|x c]; [congruence|]. simpl. rewrite str_eqb_refl.
    destruct dir as [[]|]; simpl; exact_numbers;
      rewrite ?Qred_correct; rewrite IH; ring.
  - destruct (nonEmpty c'); simpl; rewrite ?Hcc; exact IH.
Qed.

Lemma groupNet_spec (c : str) (rows : list (LedgerEntry.t Q)) :
  c <> [] -> groupNet currency c rows == Spec.netOf currency c rows.
Proof.
  intros Hc. unfold groupNet. rewrite fold_net.
  rewrite (signed_split rows Hc). exact_numbers. ring.
Qed.

End ReceivableBalances.

(** C5. For every history of ledger entries and every counterparty,
    [getReceivableBalances] has a row for the counterparty exactly when it
    has a receivable entry in the queried currency (and a name), has at most
    one such row, and in that row [net] is
    [sum(i_lent) - sum(collect) - sum(i_borrowed) + sum(repay)] over the
    entries of the counterparty, [theyOwe] is [max(net, 0)] and [iOwe] is
    [max(-net, 0)]. *)
Theorem receivable_balances_net (st : Store Q) (currency c : str) :
  let rows := ledger_entries st in
  let result := getReceivableBalances st currency in
  ((exists b, In b result /\ Balance.counterparty b = c)
     <-> (c <> [] /\ Spec.hasReceivable currency c rows))
  /\ NoDup (map (@Balance.counterparty Q) result)
  /\ (forall b, In b result -> Balance.counterparty b = c ->
        (Balance.net b == Spec.netOf currency c rows
         /\ Balance.theyOwe b == Qmax (Balance.net b) 0
         /\ Balance.iOwe b == Qmax (- Balance.net b) 0)%Q).
Proof.
  intros rows result. subst result. unfold getReceivableBalances.
  fold rows. split; [|split].
  - split.
    + intros [b [Hb Hc]]. apply in_map_iff in Hb.
      destruct Hb as [k [<- Hk]]. simpl in Hc. subst k.
      apply groupKeys_In in Hk. destruct Hk as [e [He Hk]].
      apply receivableKey_Some in Hk.
      destruct Hk as (Ht & Hcur & Hcp & Hne).
      split; [exact Hne|]. exists e. tauto.
    + intros [Hne [e (He & Ht & Hcur & Hcp)]].
      eexists. split.
      * apply in_map. apply groupKeys_In. exists e. split; [exact He|].
        apply receivableKey_Some. repeat split; eassumption.
      * reflexivity.
  - rewrite map_map. simpl. rewrite map_id. apply groupKeys_NoDup.
  - intros b Hb Hc. apply in_map_iff in Hb.
    destruct Hb as [k [<- Hk]]. simpl in Hc. subst k. simpl.
    apply groupKeys_In in Hk. destruct Hk as [e [He Hk]].
    apply receivableKey_Some in Hk. destruct Hk as (_ & _ & _ & Hne).
    split; [apply groupNet_spec; exact Hne|].
    set (net := groupNet currency c rows). exact_numbers. split.
    + destruct (QltBool 0 net) eqn:Hlt.
      * apply QltBool_true in Hlt. symmetry. apply Q.max_l.
        apply Qlt_le_weak. exact Hlt.
      * apply QltBool_false in Hlt. symmetry. apply Q.max_r. exact Hlt.
    + destruct (QltBool net 0) eqn:Hlt.
      * apply QltBool_true in Hlt. rewrite Qred_correct. symmetry.
        apply Q.max_l. apply Qlt_le_weak.
        apply Qopp_lt_compat in Hlt. exact Hlt.
      * apply QltBool_false in Hlt. symmetry. apply Q.max_r.
        apply Qopp_le_compat in Hlt. exact Hlt.
Qed.

(** ** The store and the handlers *)

Section HandlerFacts.
Context {num : Type} {N : Number num}.

Lemma store_eta (st : Store num) :
  mkStore (expenses st) (reimbursements st) (ledger_entries st) (created st)
  = st.
Proof. destruct st. reflexivity. Qed.

Lemma filter_none {A : Type} (f : A -> bool) (l : list A) :
  (forall x, In x l -> f x = false) -> filter f l = [].
Proof.
  induction l as [|x l IH]; simpl; intros H; [reflexivity|].
  rewrite (H x (or_introl eq_refl)). apply IH.
  intros y Hy. apply H. right. exact Hy.
Qed.

(** An update that hits no row returns nothing and leaves the table as it
    is. *)
Lemma update_missing (st : Store num) (id : str) (u : ExpenseUpdate) :
  (forall e, In e (expenses st) -> Expense.id e <> id) ->
  updateExpenseById st id u = (None, st).
Proof.
  intros Hmiss. unfold updateExpenseById.
  assert (Hrows : map (fun e => if str_eqb (Expense.id e) id
                                then updateRow u e else e) (expenses st)
                  = expenses st).
  { rewrite <- (map_id (expenses st)) at 2. apply map_ext_in.
    intros e He. apply Hmiss in He. apply str_eqb_neq in He.
    rewrite He. reflexivity. }
  rewrite Hrows. f_equal.
  - rewrite filter_none; [reflexivity|].
    intros e He. apply str_eqb_neq. apply Hmiss. exact He.
  - apply store_eta.
Qed.

(** A text with nothing but white space does not parse. *)
Lemma parse_blank (text : str) :
  trim text = [] -> parseExpenseMessage text = None.
Proof.
  intros H. unfold parseExpenseMessage, normalize. rewrite H. reflexivity.
Qed.

Lemma parseMessage_not_blank (text : str) (p : Parsed.t num) :
  parseMessage text = Some p -> nonEmpty (trim text) = true.
Proof.
  intros H. destruct (trim text) eqn:Ht; [|reflexivity].
  apply parse_blank in Ht. unfold parseMessage in H. rewrite Ht in H.
  discriminate.
Qed.

End HandlerFacts.

(** C6. A ledger submission whose parsed type is [receivable] and that lacks
    the counterparty or the direction is answered with status 400 and the
    message naming the missing field, and the store is left as it was: no
    ledger entry is stored and nothing is defaulted. *)
Theorem receivable_entry_rejected {num : Type} {N : Number num}
    (st : Store num) (bodyText bodyFrom : option str) (p : Parsed.t num) :
  parseMessage (withDefault bodyText []) = Some p ->
  Parsed.type p = Some TReceivable ->
  truthy (Parsed.counterparty p) = false \/ Parsed.direction p = None ->
  postLedger st bodyText bodyFrom
  = (mkResponse 400
       (ErrorJson
          (if truthy (Parsed.counterparty p)
           then lit "Missing direction (use direction:i_borrowed|i_lent|repay|collect)"
           else lit "Missing counterparty (use counterparty:<name>)")),
     st).
Proof.
  intros Hparse Htype Hmissing. unfold postLedger.
  rewrite (parseMessage_not_blank _ Hparse). simpl negb. cbv iota.
  rewrite Hparse, Htype. simpl.
  destruct (truthy (Parsed.counterparty p)) eqn:Hcp; simpl.
  - destruct Hmissing as [H|H]; [discriminate|]. rewrite H. reflexivity.
  - reflexivity.
Qed.


(** ** Trimming *)

Lemma trimStart_clean (s : str) : startsClean (trimStart s).
Proof.
  induction s as [|c r IH]; simpl; [exact I|].
  destruct (isSpace c) eqn:Hc; [exact IH | exact Hc].
Qed.

Lemma trimStart_fixed (s : str) : startsClean s -> trimStart s = s.
Proof.
  destruct s as [|c r]; simpl; [reflexivity|]. intros ->. reflexivity.
Qed.

Lemma trimStart_suffix (s : str) : exists w, s = w ++ trimStart s.
Proof.
  induction s as [|c r [w IH]]; simpl.
  - exists []. reflexivity.
  - destruct (isSpace c).
    + exists (c :: w). simpl. f_equal. exact IH.
    + exists []. reflexivity.
Qed.

Lemma trimEnd_prefix (s : str) : exists w, s = trimEnd s ++ w.
Proof.
  unfold trimEnd. destruct (trimStart_suffix (rev s)) as [w Hw].
  exists (rev w). rewrite <- rev_app_distr, <- Hw, rev_involutive.
  reflexivity.
Qed.

Lemma startsClean_prefix (p w : str) : startsClean (p ++ w) -> startsClean p.
Proof. destruct p; simpl; auto. Qed.

Lemma trimEnd_idem (s : str) : trimEnd (trimEnd s) = trimEnd s.
Proof.
  unfold trimEnd. rewrite rev_involutive.
  rewrite trimStart_fixed by apply trimStart_clean. reflexivity.
Qed.

Lemma trim_idem (s : str) : trim (trim s) = trim s.
Proof.
  unfold trim. set (t := trimStart s).
  assert (Hclean : startsClean (trimEnd t)).
  { destruct (trimEnd_prefix t) as [w Hw].
    apply startsClean_prefix with (w := w). rewrite <- Hw.
    apply trimStart_clean. }
  rewrite trimStart_fixed by exact Hclean. apply trimEnd_idem.
Qed.

Lemma nonEmpty_true (s : str) : nonEmpty s = true <-> s <> [].
Proof. destruct s; simpl; split; congruence. Qed.

Lemma trimmed_parts_clean (l : list str) :
  Forall cleanName (filterBoolean (map trim l)).
Proof.
  unfold filterBoolean. apply Forall_forall. intros x Hx.
  apply filter_In in Hx. destruct Hx as [Hin Hne].
  apply in_map_iff in Hin. destruct Hin as [y [<- _]].
  split; [apply trim_idem | apply nonEmpty_true; exact Hne].
Qed.

Lemma clean_parts_kept (l : list str) :
  Forall cleanName l -> filterBoolean (map trim l) = l.
Proof.
  unfold filterBoolean.
  induction 1 as [|x l [Ht Hne] _ IH]; simpl; [reflexivity|].
  rewrite Ht. apply nonEmpty_true in Hne. rewrite Hne.
  rewrite IH. reflexivity.
Qed.

(** ** The loop over the tokens *)

Lemma stripPrefix_Some (p s v : str) :
  stripPrefix p s = Some v -> s = p ++ v.
Proof.
  revert s. induction p as [|a p IH]; intros s; simpl.
  - intros H. injection H as ->. reflexivity.
  - destruct s as [|b s]; [discriminate|].
    destruct (Ascii.eqb a b) eqn:Hab; [|discriminate].
    apply Ascii.eqb_eq in Hab. subst b. intros H. f_equal. apply IH, H.
Qed.

Lemma firstSome_Some {A B : Type} (f : A -> option B) (xs : list A) (y : B) :
  firstSome f xs = Some y -> exists x, In x xs /\ f x = Some y.
Proof.
  induction xs as [|x xs IH]; simpl; [discriminate|].
  destruct (f x) eqn:Hx.
  - intros H. injection H as ->. exists x. auto.
  - intros H. destruct (IH H) as [x' [Hin Hf]]. exists x'. auto.
Qed.

Lemma matchKeys_prefix (keys : list string) (lower v : str) :
  matchKeys keys lower = Some v ->
  exists k, In k keys /\ lower = (lit k ++ lit ":") ++ v.
Proof.
  unfold matchKeys. intros H. apply firstSome_Some in H.
  destruct H as [k [Hin Hk]]. exists k. split; [exact Hin|].
  destruct (stripPrefix (lit k ++ lit ":") lower) as [w|] eqn:Hw;
    [|discriminate].
  destruct (dotPlus w); [|discriminate]. injection Hk as ->.
  apply stripPrefix_Some. exact Hw.
Qed.


(** Every loop invariant that each token keeps is kept by the loop; [T] is
    what is known of the tokens. *)
Lemma metaLoop_invariant (T : str -> Prop) (P : MetaAcc -> Prop) :
  (forall t next a, T t -> P a ->
     P (applyAction (fst (classifyToken t next)) a)) ->
  forall tokens a, Forall T tokens -> P a -> P (metaLoop tokens a).
Proof.
  intros Hstep tokens.
  assert (H : forall n tokens, length tokens <= n -> Forall T tokens ->
                forall a, P a -> P (metaLoop tokens a)).
  { induction n as [|n IH]; intros [|t rest] Hlen HT a Ha; simpl in *;
      try exact Ha; try lia.
    inversion HT as [|? ? Ht Hrest]; subst.
    specialize (Hstep t (hd_error rest) a Ht Ha).
    destruct (classifyToken t (hd_error rest)) as [act consume].
    simpl in Hstep. destruct consume.
    - destruct rest as [|t' rest']; [exact Hstep|].
      inversion Hrest; subst.
      apply IH; [simpl in Hlen; lia | assumption | exact Hstep].
    - apply IH; [lia | exact Hrest | exact Hstep]. }
  intros a HT. apply (H (Datatypes.length tokens)); [lia | exact HT].
Qed.

(** Takes the chain of tests of [classifyToken] apart, one test at a
    time. *)
Ltac classify_step :=
  match goal with
  | |- context [match matchKeys ?k ?l with _ => _ end] =>
      destruct (matchKeys k l) eqn:?
  | |- context [match matchEnum ?k ?vs ?l with _ => _ end] =>
      destruct (matchEnum k vs l) eqn:?
  | |- context [if str_eqb ?a ?b then _ else _] =>
      destruct (str_eqb a b) eqn:?
  | |- context [match ratioToken ?v with _ => _ end] =>
      destruct (ratioToken v) eqn:?
  | |- context [if validRatio ?a ?b then _ else _] =>
      destruct (validRatio a b) eqn:?
  end.

Ltac classify_cases :=
  unfold classifyToken, splitOfRatio; cbv zeta;
  repeat (classify_step; cbn [fst snd]).

(** *** Lower case *)

Lemma toLowerChar_lower (c : ascii) : isUpper (toLowerChar c) = false.
Proof. destruct c as [[] [] [] [] [] [] [] []]; reflexivity. Qed.

Lemma toLowerCase_lowered (s : str) : lowered (toLowerCase s).
Proof.
  unfold lowered, toLowerCase. apply Forall_forall. intros c Hc.
  apply in_map_iff in Hc. destruct Hc as [c' [<- _]].
  apply toLowerChar_lower.
Qed.

Lemma lowered_fixed (s : str) : lowered s -> toLowerCase s = s.
Proof.
  induction 1 as [|c s Hc _ IH]; simpl; [reflexivity|].
  unfold toLowerChar at 1. rewrite Hc. f_equal. exact IH.
Qed.

Section CharsKept.
Variable P : ascii -> Prop.

Lemma Forall_trimStart (s : str) : Forall P s -> Forall P (trimStart s).
Proof.
  intros H. destruct (trimStart_suffix s) as [w Hw]. rewrite Hw in H.
  apply Forall_app in H. apply H.
Qed.

Lemma Forall_trim (s : str) : Forall P s -> Forall P (trim s).
Proof.
  intros H. unfold trim, trimEnd. apply Forall_rev. apply Forall_trimStart.
  apply Forall_rev. apply Forall_trimStart. exact H.
Qed.

Lemma Forall_split (sep : ascii) (s : str) :
  Forall P s -> Forall (Forall P) (split sep s).
Proof.
  induction 1 as [|c s Hc _ IH]; simpl.
  - repeat constructor.
  - destruct (Ascii.eqb c sep).
    + constructor; [constructor | exact IH].
    + destruct (split sep s) as [|w ws]; inversion IH; subst;
        repeat constructor; assumption.
Qed.

End CharsKept.

Lemma parts_lowered (raw : str) :
  lowered raw -> Forall lowered (filterBoolean (map trim (split ","%char raw))).
Proof.
  intros H. unfold filterBoolean. apply Forall_forall. intros x Hx.
  apply filter_In in Hx. destruct Hx as [Hx _].
  apply in_map_iff in Hx. destruct Hx as [y [<- Hy]].
  apply Forall_trim.
  pose proof (Forall_split ","%char H) as Hs.
  rewrite Forall_forall in Hs. apply Hs. exact Hy.
Qed.

(** *** White space *)

Lemma toLowerChar_space (c : ascii) : isSpace (toLowerChar c) = isSpace c.
Proof. destruct c as [[] [] [] [] [] [] [] []]; reflexivity. Qed.

Lemma noSpace_trim (s : str) : noSpace s -> trim s = s.
Proof.
  intros H. unfold trim, trimEnd.
  assert (Hfix : forall x, noSpace x -> trimStart x = x).
  { intros x Hx. apply trimStart_fixed. destruct Hx; simpl; auto. }
  rewrite (Hfix s H). rewrite Hfix by (apply Forall_rev; exact H).
  apply rev_involutive.
Qed.

Lemma collapseSpaces_chars (inRun : bool) (s : str) :
  Forall (fun c => isSpace c = false \/ c = " "%char)
         (collapseSpaces inRun s).
Proof.
  revert inRun. induction s as [|c s IH]; intros inRun; simpl.
  - constructor.
  - destruct (isSpace c) eqn:Hc.
    + destruct inRun; [apply IH|]. constructor; [right; reflexivity|apply IH].
    + constructor; [left; exact Hc | apply IH].
Qed.

Lemma split_no_separator (sep : ascii) (s : str) :
  Forall (Forall (fun c => c <> sep)) (split sep s).
Proof.
  induction s as [|c s IH]; simpl.
  - repeat constructor.
  - destruct (Ascii.eqb c sep) eqn:Hc.
    + constructor; [constructor | exact IH].
    + apply Ascii.eqb_neq in Hc.
      destruct (split sep s) as [|w ws]; inversion IH; subst;
        repeat constructor; assumption.
Qed.

(** The tokens of a normalized text have no white space. *)
Lemma words_noSpace (text : str) : Forall noSpace (words (normalize text)).
Proof.
  unfold words, filterBoolean, normalize.
  apply Forall_forall. intros t Ht. apply filter_In in Ht.
  destruct Ht as [Ht _].
  pose proof (Forall_split " "%char (collapseSpaces_chars false (trim text)))
    as Hchars.
  pose proof (split_no_separator " "%char
                (collapseSpaces false (trim text))) as Hsep.
  rewrite Forall_forall in Hchars, Hsep.
  specialize (Hchars t Ht). specialize (Hsep t Ht).
  apply Forall_forall. intros c Hc.
  rewrite Forall_forall in Hchars, Hsep.
  destruct (Hchars c Hc) as [H|H]; [exact H|].
  exfalso. apply (Hsep c Hc). exact H.
Qed.

Lemma toLowerCase_noSpace (t : str) : noSpace t -> noSpace (toLowerCase t).
Proof.
  intros H. unfold noSpace, toLowerCase. rewrite Forall_map.
  eapply Forall_impl; [|exact H]. intros c Hc.
  rewrite toLowerChar_space. exact Hc.
Qed.

Lemma dotPlus_not_nil (v : str) : dotPlus v = true -> v <> [].
Proof. destruct v; simpl; [discriminate | discriminate]. Qed.

(** The names an action brings are clean and in lower case, and the person
    of a [for:] token is trimmed and, on a token without white space, not
    empty. *)
Lemma classify_shape (t : str) (next : option str) :
  match fst (classifyToken t next) with
  | PushOthers parts => Forall cleanName parts /\ Forall lowered parts
  | SetFor v => trim v = v /\ (noSpace t -> v <> [])
  | _ => True
  end.
Proof.
  classify_cases; try exact I;
    try (destruct next; classify_cases; exact I).
  - split; [apply trim_idem|]. intros Ht.
    match goal with H : matchKeys _ _ = Some ?v |- _ =>
      unfold matchKeys in H; apply firstSome_Some in H;
      destruct H as [k [_ Hk]];
      destruct (stripPrefix (lit k ++ lit ":") (toLowerCase t))
        as [w|] eqn:Hw; [|discriminate];
      destruct (dotPlus w) eqn:Hdot; [|discriminate];
      injection Hk as <- end.
    apply stripPrefix_Some in Hw.
    pose proof (toLowerCase_noSpace Ht) as Hl. rewrite Hw in Hl.
    apply Forall_app in Hl. destruct Hl as [_ Hl].
    rewrite (noSpace_trim Hl). apply dotPlus_not_nil. exact Hdot.
  - split; [apply trimmed_parts_clean|]. apply parts_lowered.
    match goal with H : matchKeys _ _ = Some _ |- _ =>
      apply matchKeys_prefix in H; destruct H as [k [_ Hk]] end.
    pose proof (toLowerCase_lowered t) as Hl. rewrite Hk in Hl.
    apply Forall_app in Hl. apply Hl.
Qed.

Lemma applyAction_ok (act : TokenAction) (a : MetaAcc) :
  match act with
  | PushOthers parts => Forall cleanName parts /\ Forall lowered parts
  | SetFor v => trim v = v /\ v <> []
  | _ => True
  end ->
  accOk a -> accOk (applyAction act a).
Proof.
  intros Hact [Hraw Hlow Hfirst Hfor].
  destruct a as [kept card paidBy forPerson splitType rMe rOther otherParty
                 raw ty acct asset liab cp dir].
  simpl in *.
  destruct act as [| | | | | | | |v|parts|st [[x y]|]|]; simpl;
    constructor; simpl; auto.
  - intros f H. injection H as <-. exact Hact.
  - apply Forall_app. split; [assumption | apply Hact].
  - apply Forall_app. split; [assumption | apply Hact].
  - rewrite Hfirst. destruct raw; reflexivity.
Qed.

(** The loop on tokens without white space. *)
Lemma metaLoop_ok (tokens : list str) :
  Forall noSpace tokens -> accOk (metaLoop tokens initAcc).
Proof.
  intros Htokens. apply (@metaLoop_invariant noSpace accOk).
  - intros t next a Ht Ha. apply applyAction_ok; [|exact Ha].
    pose proof (classify_shape t next) as Hs.
    destruct (fst (classifyToken t next)); try exact I; try exact Hs.
    destruct Hs as [H1 H2]. split; [exact H1 | exact (H2 Ht)].
  - exact Htokens.
  - constructor; simpl; [constructor | constructor | reflexivity
                        | discriminate].
Qed.

(** *** The parties without repetition *)

Lemma mapSet_same (x : str) (d : list str) :
  mapSet x x (map (fun s => (s, s)) d)
  = map (fun s => (s, s))
        (if existsb (str_eqb x) d then d else d ++ [x]).
Proof.
  induction d as [|y d IH]; simpl; [reflexivity|].
  destruct (str_eqb x y) eqn:Hxy; simpl.
  - apply str_eqb_eq in Hxy. subst y. reflexivity.
  - rewrite IH. destruct (existsb (str_eqb x) d); reflexivity.
Qed.

Lemma filter_filter {A : Type} (f g : A -> bool) (l : list A) :
  filter f (filter g l) = filter (fun y => g y && f y) l.
Proof.
  induction l as [|y l IH]; simpl; [reflexivity|].
  destruct (g y); simpl; [destruct (f y)|]; rewrite ?IH; reflexivity.
Qed.

Lemma newMap_same (l d : list str) :
  fold_left (fun m kv => mapSet (fst kv) (snd kv) m)
            (map (fun s => (s, s)) l) (map (fun s => (s, s)) d)
  = map (fun s => (s, s))
        (d ++ filter (fun y => negb (existsb (str_eqb y) d))
                     (Spec.dedupFirst l)).
Proof.
  revert d. induction l as [|x l IH]; intros d; simpl.
  - rewrite app_nil_r. reflexivity.
  - rewrite mapSet_same. destruct (existsb (str_eqb x) d) eqn:Hx; simpl.
    + rewrite IH. do 2 f_equal. rewrite filter_filter.
      apply filter_ext_in. intros y _.
      destruct (str_eqb y x) eqn:Hyx; simpl; [|reflexivity].
      apply str_eqb_eq in Hyx. subst y. rewrite Hx. reflexivity.
    + rewrite IH. rewrite <- app_assoc. simpl. do 3 f_equal.
      rewrite filter_filter. apply filter_ext_in. intros y _.
      rewrite existsb_app. simpl. rewrite orb_false_r.
      rewrite negb_orb. apply andb_comm.
Qed.

Lemma dedupeParties_spec (raw : list str) :
  Forall cleanName raw -> Forall lowered raw ->
  dedupeParties raw = Spec.dedupFirst raw.
Proof.
  intros Hclean Hlow. unfold dedupeParties, newMap.
  rewrite (clean_parts_kept Hclean).
  assert (Hpairs : map (fun s => (toLowerCase s, s)) raw
                   = map (fun s => (s, s)) raw).
  { apply map_ext_in. intros s Hs. f_equal. apply lowered_fixed.
    rewrite Forall_forall in Hlow. apply Hlow. exact Hs. }
  rewrite Hpairs. pose proof (newMap_same raw []) as Hm. simpl in Hm.
  rewrite Hm. rewrite map_map. simpl. rewrite map_id.
  clear. induction (Spec.dedupFirst raw) as [|x l IH]; simpl;
    [reflexivity | f_equal; exact IH].
Qed.

(** *** First occurrences *)

Lemma dedupFirst_In (x : str) (l : list str) :
  In x (Spec.dedupFirst l) <-> In x l.
Proof.
  induction l as [|y l IH]; simpl; [tauto|].
  rewrite filter_In, IH. destruct (str_eqb x y) eqn:Hxy.
  - apply str_eqb_eq in Hxy. subst. simpl. intuition congruence.
  - pose proof (proj1 (str_eqb_neq x y) Hxy). simpl. intuition congruence.
Qed.


Lemma dedupFirst_hd (l : list str) :
  hd_error (Spec.dedupFirst l) = hd_error l.
Proof. destruct l; reflexivity. Qed.

(** ** What the parser guarantees *)

Lemma jsIsPositive_pos (q : Q) : jsIsPositive q = true -> (0 < q)%Q.
Proof.
  unfold jsIsPositive. intros H. apply QltBool_true in H.
  eapply Qlt_trans; [|exact H]. reflexivity.
Qed.

Lemma extractMeta_ok (text : str) :
  let m := extractMetaTokens (normalize text) in
  (forall l, m_otherParties m = Some l ->
     l <> [] /\ Forall cleanName l /\ m_otherParty m = hd_error l)
  /\ (m_otherParties m = None -> m_otherParty m = None)
  /\ (forall f, m_forPerson m = Some f -> trim f = f /\ f <> []).
Proof.
  unfold extractMetaTokens. cbv zeta. simpl.
  destruct (metaLoop_ok (words_noSpace text)) as [Hraw Hlow Hfirst Hfor].
  set (a := metaLoop (words (normalize text)) initAcc) in *.
  rewrite (dedupeParties_spec Hraw Hlow).
  destruct (Spec.dedupFirst (a_otherPartiesRaw a)) as [|x d] eqn:Hd.
  - split; [discriminate|]. split; [|exact Hfor]. intros _.
    rewrite Hfirst, <- dedupFirst_hd, Hd. reflexivity.
  - split; [|split; [discriminate | exact Hfor]].
    intros l Hl. injection Hl as <-. split; [discriminate|]. split.
    + apply Forall_forall. intros y Hy. rewrite <- Hd in Hy.
      apply (proj1 (dedupFirst_In _ _)) in Hy.
      rewrite Forall_forall in Hraw.
      apply Hraw. exact Hy.
    + rewrite Hfirst, <- dedupFirst_hd, Hd. reflexivity.
Qed.

Lemma parse_ok (text : str) (p : Parsed.t Q) :
  parseExpenseMessage text = Some p -> parsedOk p.
Proof.
  unfold parseExpenseMessage. cbv zeta.
  pose proof (extractMeta_ok text) as Hmeta.
  set (meta := extractMetaTokens (normalize text)) in *.
  destruct (parseDateToken (m_cleaned meta)) as [occurredOn rest].
  destruct (nonEmpty rest); simpl; [|discriminate].
  destruct (findAmount 0 rest) as [m|]; [|discriminate].
  destruct (jsIsFinite (amountOf m)); simpl; [|discriminate].
  destruct (jsIsPositive (amountOf m)) eqn:Hpos; simpl; [|discriminate].
  destruct (categoryAndNote (candidateTokens rest m)) as [category note].
  intros H. injection H as <-. cbv zeta in Hmeta.
  destruct Hmeta as (Hparties & Hnone & Hfor).
  constructor; simpl; try assumption; try discriminate.
  - apply jsIsPositive_pos. exact Hpos.
  - reflexivity.
Qed.

(** ** Runs of the two expense handlers *)

Section Runs.
Context {num : Type} {N : Number num}.

Lemma insertDebts_spec (debts : list (Debt num)) (st : Store num)
    (e : Expense.t num) (from : option str) (text : str) :
  exists rows,
    reimbursements (insertDebts st e from text debts)
    = reimbursements st ++ rows
    /\ expenses (insertDebts st e from text debts) = expenses st
    /\ ledger_entries (insertDebts st e from text debts) = ledger_entries st
    /\ map debtOf rows = debts
    /\ Forall (fun r => Reimbursement.expenseId r = Some (Expense.id e)) rows.
Proof.
  revert st. induction debts as [|[[party direction] amount] debts IH];
    intros st; simpl.
  - exists []. rewrite app_nil_r. repeat split; constructor.
  - match goal with |- context [insertDebts ?s _ _ _ debts] =>
      destruct (IH s) as (rows & Hr & He & Hl & Hd & Hid) end.
    simpl in Hr, He, Hl. eexists (_ :: rows). rewrite Hr, He, Hl.
    rewrite <- app_assoc. simpl. repeat split.
    + unfold debtOf at 1. simpl. f_equal. exact Hd.
    + constructor; [reflexivity | exact Hid].
Qed.

(** [allocate] touches the share, the split and the parties only. *)
Lemma allocate_amount (p : Parsed.t num) :
  Parsed.amount (allocate p) = Parsed.amount p.
Proof.
  unfold allocate, applyForPerson. simpl.
  destruct (Parsed.forPerson p) as [f|]; [destruct (nonEmpty f)|];
    reflexivity.
Qed.

(** A successful creation: the expense row is appended, then one
    reimbursement row for each peer debt of the allocated message. *)
Lemma ingest_run (st : Store num) (text : str) (from source : option str)
    (plain : bool) (p0 : Parsed.t num) :
  parseMessage text = Some p0 ->
  exists e rows st',
    ingestMessage st (Some text) from source plain
    = (mkResponse 200 (ExpenseJson e), st')
    /\ Expense.amount e = Parsed.amount p0
    /\ Expense.myAmount e
       = withDefault (Parsed.myAmount (allocate p0)) (Parsed.amount p0)
    /\ expenses st' = expenses st ++ [e]
    /\ reimbursements st' = reimbursements st ++ rows
    /\ ledger_entries st' = ledger_entries st
    /\ map debtOf rows = peerDebts (allocate p0) (Parsed.amount p0)
    /\ Forall (fun r => Reimbursement.expenseId r = Some (Expense.id e)) rows.
Proof.
  intros Hparse. unfold ingestMessage.
  destruct text as [|c text'].
  { apply parseMessage_not_blank in Hparse. discriminate. }
  rewrite Hparse. set (text := c :: text') in *.
  set (parsed := allocate p0).
  destruct (insertExpense st text from (withDefault source (lit "message"))
              parsed CURRENCY) as [e st1] eqn:Hins.
  unfold insertExpense in Hins. injection Hins as He Hst1.
  destruct (insertDebts_spec (peerDebts parsed (Expense.amount e)) st1 e
              from text) as (rows & Hr & Hex & Hl & Hd & Hid).
  exists e, rows, (insertDebts st1 e from text
                     (peerDebts parsed (Expense.amount e))).
  split; [reflexivity|].
  assert (Hamount : Expense.amount e = Parsed.amount p0).
  { rewrite <- He. simpl. apply allocate_amount. }
  rewrite Hr, Hex, Hl, Hd, Hamount. subst e st1. simpl.
  pose proof (allocate_amount p0) as Ha. fold parsed in Ha. rewrite Ha.
  repeat split; assumption.
Qed.


(** The edit reads nothing of the date when it allocates. *)
Lemma allocate_setOccurredOn (d : DateRef) (p : Parsed.t num) :
  allocate (setOccurredOn d p) = setOccurredOn d (allocate p).
Proof.
  unfold allocate, applyForPerson.
  cbn [Parsed.forPerson setOccurredOn setMyAmount].
  destruct (Parsed.forPerson p) as [f|]; [destruct (nonEmpty f)|];
    reflexivity.
Qed.



End Runs.

(** ** The allocation *)


Section Allocation.
Context {num : Type} {N : Number num}.













End Allocation.





(** ** Shares in exact arithmetic *)

Section ExactShares.
Local Open Scope Q_scope.











End ExactShares.




(** The same scenario run on binary64 numbers. *)
Example equal_split_300_binary64 :
  let result :=
    ingestMessage (emptyStore float)
      (Some (lit "room 300 paidby:roommate other:vyas split:equal 2026-02-15"))
      None None false in
  map (@Expense.myAmount float) (expenses (snd result)) = [150%float]
  /\ map debtOf (reimbursements (snd result))
     = [(lit "vyas", IOweThem, 150%float)].
Proof. vm_compute. split; reflexivity. Qed.





(** The scenario of the specification: a receivable entry without
    counterparty is rejected and nothing is stored. *)
Lemma receivable_entry_rejected_witness :
  postLedger (emptyStore Q)
    (Some (lit "took 1200 type:receivable direction:i_borrowed")) None
  = (mkResponse 400
       (ErrorJson (lit "Missing counterparty (use counterparty:<name>)")),
     emptyStore Q).
Proof.
  eapply eq_trans.
  - eapply (@receivable_entry_rejected Q _ (emptyStore Q)
              (Some (lit "took 1200 type:receivable direction:i_borrowed"))
              None);
      [vm_compute; reflexivity | reflexivity | left; reflexivity].
  - reflexivity.
Defined.

(** The same submission with the counterparty and without the direction. *)
Example receivable_entry_without_direction :
  postLedger (emptyStore Q)
    (Some (lit "took 1200 type:receivable counterparty:kevin")) None
  = (mkResponse 400
       (ErrorJson
          (lit "Missing direction (use direction:i_borrowed|i_lent|repay|collect)")),
     emptyStore Q).
Proof. vm_compute. reflexivity. Qed.


(** The scenario of the specification: one entry [i_borrowed] of 1200 with
    kevin gives, for kevin, net -1200, iOwe 1200 and theyOwe 0. *)
Lemma receivable_balances_net_witness :
  let st := snd (postLedger (emptyStore Q)
                   (Some (lit "took 1200 type:receivable counterparty:kevin direction:i_borrowed"))
                   None) in
  exists b,
    In b (getReceivableBalances st (lit "USD"))
    /\ Balance.counterparty b = lit "kevin"
    /\ (Balance.net b == - (1200))%Q
    /\ (Balance.iOwe b == 1200)%Q
    /\ (Balance.theyOwe b == 0)%Q.
Proof.
  intros st.
  destruct (receivable_balances_net st (lit "USD") (lit "kevin"))
    as (Hrow & _ & Hnet).
  destruct (proj2 Hrow) as [b [Hb Hc]].
  { split; [vm_compute; discriminate|]. vm_compute.
    eexists. split; [left; reflexivity|]. repeat split; reflexivity. }
  destruct (Hnet b Hb Hc) as (Hn & Hthey & Howe).
  assert (Hval : (Balance.net b == - (1200))%Q).
  { eapply Qeq_trans; [exact Hn | vm_compute; reflexivity]. }
  exists b. split; [exact Hb|]. split; [exact Hc|]. split; [exact Hval|].
  split.
  - eapply Qeq_trans; [exact Howe|]. eapply Qeq_trans.
    + apply Q.max_l. rewrite Hval. vm_compute. discriminate.
    + rewrite Hval. vm_compute. reflexivity.
  - eapply Qeq_trans; [exact Hthey|]. apply Q.max_r. rewrite Hval.
    vm_compute. discriminate.
Defined.

(** ** The parties of the [other:] tokens *)













(** ** The amount pattern *)
















(** ** The category *)






Example category_uber :
  exists p, parseExpenseMessage (lit "uber 22") = Some p
            /\ Parsed.category p = Some (lit "transport")
            /\ Parsed.note p = None.
Proof.
  eexists. split; [vm_compute; reflexivity|]. split; reflexivity.
Qed.


(** ** The tests of the repository, run on the embedding *)

Section RepositoryTests.
Local Open Scope Q_scope.

Example test_amount_and_note :
  Spec.amountCategoryNote (parseExpenseMessage (lit "spent 250 chai"))
  = Some (250, None, Some (lit "chai")).
Proof. vm_compute. reflexivity. Qed.

Example test_category_first_word :
  Spec.amountCategoryNote (parseExpenseMessage (lit "food 499 swiggy"))
  = Some (499, Some (lit "food"), Some (lit "swiggy")).
Proof. vm_compute. reflexivity. Qed.

Example test_rupee_and_commas :
  Spec.amountCategoryNote
    (parseExpenseMessage (rupee ++ lit "1,250 groceries"))
  = Some (1250, None, Some (lit "groceries")).
Proof. vm_compute. reflexivity. Qed.

Example test_usd :
  Spec.amountCategoryNote (parseExpenseMessage (lit "usd 12.50 coffee"))
  = Some (25 # 2, None, Some (lit "coffee")).
Proof. vm_compute. reflexivity. Qed.

Example test_iso_date :
  option_map (fun p => (Parsed.amount p, Parsed.occurredOn p))
             (parseExpenseMessage (lit "rent 1200 2026-02-01"))
  = Some (1200, Some (Ymd (lit "2026-02-01"))).
Proof. vm_compute. reflexivity. Qed.

Example test_no_number : parseExpenseMessage (lit "hello there") = None.
Proof. vm_compute. reflexivity. Qed.

Example test_split_equal :
  option_map (fun p => (Parsed.amount p, Parsed.paidBy p, Parsed.splitType p,
                        Parsed.otherParties p, Parsed.occurredOn p))
    (parseExpenseMessage (lit "room 300 paidby:roommate other:vyas split:equal other:vyas 2026-02-15"))
  = Some (300, Some Roommate, Some SplitEqual, Some [lit "vyas"],
          Some (Ymd (lit "2026-02-15"))).
Proof. vm_compute. reflexivity. Qed.

Example test_split_ratio :
  option_map (fun p => (Parsed.amount p, Parsed.splitType p,
                        Parsed.splitRatioMe p, Parsed.splitRatioOther p))
    (parseExpenseMessage (lit "food 90 paidby:me split:2/1 other:vyas"))
  = Some (90, Some SplitRatio, Some 2, Some 1).
Proof. vm_compute. reflexivity. Qed.

Example test_ledger_type :
  option_map (fun p => (Parsed.amount p, Parsed.type p, Parsed.account p))
    (parseExpenseMessage (lit "salary 5000 type:income account:checking"))
  = Some (5000, Some TIncome, Some (lit "checking")).
Proof. vm_compute. reflexivity. Qed.

Example test_investment_and_liability :
  option_map (fun p => (Parsed.type p, Parsed.asset p))
    (parseExpenseMessage (lit "invest 250 type:investment asset:vti"))
  = Some (Some TInvestment, Some (lit "vti"))
  /\ option_map (fun p => (Parsed.type p, Parsed.liability p))
       (parseExpenseMessage (lit "loan 1200 type:liability liability:car"))
     = Some (Some TLiability, Some (lit "car")).
Proof. split; vm_compute; reflexivity. Qed.

Example test_receivable :
  option_map (fun p => (Parsed.type p, Parsed.counterparty p,
                        Parsed.direction p))
    (parseExpenseMessage (lit "took 1200 type:receivable counterparty:kevin direction:i_borrowed"))
  = Some (Some TReceivable, Some (lit "kevin"), Some IBorrowed).
Proof. vm_compute. reflexivity. Qed.

Example test_for_person :
  option_map (@Parsed.forPerson Q) (parseExpenseMessage (lit "food 20 for:kevin"))
  = Some (Some (lit "kevin")).
Proof. vm_compute. reflexivity. Qed.

End RepositoryTests.

(** * The other routes, the queries, and the parser as a whole *)

(** ** Deleting an expense *)

Section Deleting.
Context {num : Type} {N : Number num}.






End Deleting.

(** ** Totals and the net worth *)

Section TotalsFacts.
Local Open Scope Q_scope.






Lemma sqlSum_nil : @sqlSum Q _ [] == 0.
Proof. reflexivity. Qed.



End TotalsFacts.


(** ** The shape of a parsed message *)



(** A token that sets a ratio sets a valid one. *)
Lemma classify_split (t : str) (next : option str) :
  match fst (classifyToken t next) with
  | SetSplit st r =>
      (st = SplitRatio /\ exists x y, r = Some (x, y)
                                      /\ validRatio x y = true)
      \/ (st = SplitEqual /\ r = None)
  | _ => True
  end.
Proof.
  classify_cases; try exact I;
    try (destruct next; classify_cases);
    try exact I; try (right; split; reflexivity);
    left; (split; [reflexivity|]); eexists _, _;
    (split; [reflexivity | assumption]).
Qed.


Lemma metaLoop_ratio (tokens : list str) :
  let a := metaLoop tokens initAcc in
  a_splitType a = SplitRatio ->
  exists x y, a_splitRatioMe a = Some x /\ a_splitRatioOther a = Some y
              /\ validRatio x y = true.
Proof.
  apply (@metaLoop_invariant (fun _ => True)
           (fun a => a_splitType a = SplitRatio ->
              exists x y, a_splitRatioMe a = Some x
                          /\ a_splitRatioOther a = Some y
                          /\ validRatio x y = true)).
  - intros t next a _ Ha. pose proof (classify_split t next) as Hc.
    destruct a as [kept card paidBy forPerson splitType rMe rOther
                   otherParty raw ty acct asset liab cp dir].
    simpl in Ha.
    destruct (fst (classifyToken t next))
      as [v|v|v|v|v|v|v|v|v|parts|st [[x y]|]|k];
      simpl; try exact Ha.
    + intros _. destruct Hc as [[_ (x' & y' & Hxy & Hv)]|[_ H]];
        [|discriminate].
      injection Hxy as <- <-. exists x, y. repeat split. exact Hv.
    + intros Hst. destruct Hc as [[_ (x' & y' & Hxy & _)]|[-> _]];
        discriminate.
  - apply Forall_forall. intros; exact I.
  - simpl. discriminate.
Qed.

(** The fields of the message that come straight from the loop. *)
Lemma parse_meta (text : str) (q : Parsed.t Q) :
  parseExpenseMessage text = Some q ->
  let a := metaLoop (words (normalize text)) initAcc in
  Parsed.card q = a_card a /\ Parsed.account q = a_account a
  /\ Parsed.asset q = a_asset a /\ Parsed.liability q = a_liability a
  /\ Parsed.counterparty q = a_counterparty a
  /\ Parsed.forPerson q = a_forPerson a
  /\ Parsed.paidBy q = a_paidBy a
  /\ Parsed.direction q = a_direction a
  /\ Parsed.type q = Some (withDefault (a_type a) TExpense)
  /\ Parsed.splitType q = Some (a_splitType a)
  /\ Parsed.splitRatioMe q = a_splitRatioMe a
  /\ Parsed.splitRatioOther q = a_splitRatioOther a.
Proof.
  unfold parseExpenseMessage. cbv zeta.
  set (meta := extractMetaTokens (normalize text)).
  destruct (parseDateToken (m_cleaned meta)) as [occurredOn rest].
  destruct (nonEmpty rest); simpl; [|discriminate].
  destruct (findAmount 0 rest) as [m|]; [|discriminate].
  destruct (jsIsFinite (amountOf m)); simpl; [|discriminate].
  destruct (jsIsPositive (amountOf m)); simpl; [|discriminate].
  destruct (categoryAndNote (candidateTokens rest m)) as [category note].
  intros H. injection H as <-. simpl.
  destruct (a_type (metaLoop (words (normalize text)) initAcc));
    repeat split; reflexivity.
Qed.


Section Shape.
Local Open Scope Q_scope.

(** X17. A parsed message always has a split type, and a split of type
    [ratio] always comes with its two ratio numbers, both above zero: a
    ratio that is missing, zero or malformed never leaves the type
    [ratio] behind. *)
Theorem ratio_split_is_well_formed (text : str) (q : Parsed.t Q) :
  parseExpenseMessage text = Some q ->
  Parsed.splitType q <> None
  /\ (Parsed.splitType q = Some SplitRatio ->
      exists a b, Parsed.splitRatioMe q = Some a
                  /\ Parsed.splitRatioOther q = Some b
                  /\ 0 < a /\ 0 < b).
Proof.
  intros Hparse.
  destruct (@parse_meta text q Hparse)
    as (_ & _ & _ & _ & _ & _ & _ & _ & _ & Hst & Hme & Hother).
  rewrite Hst, Hme, Hother. split; [discriminate|].
  intros H. injection H as H.
  destruct (@metaLoop_ratio (words (normalize text)) H)
    as (x & y & Hx & Hy & Hv).
  exists x, y. split; [exact Hx|]. split; [exact Hy|].
  unfold validRatio in Hv. apply andb_true_iff in Hv. destruct Hv as [Hv Hpy].
  apply andb_true_iff in Hv. destruct Hv as [_ Hpx].
  split; apply jsIsPositive_pos; assumption.
Qed.

End Shape.


Section MoneyFacts.
Local Open Scope Q_scope.









End MoneyFacts.

(** ** The reimbursement balance *)

Section ReimbursementFacts.
Local Open Scope Q_scope.












(** *** The parties *)




Lemma qsum_perm (l1 l2 : list Q) :
  Permutation l1 l2 -> Ref.qsum l1 == Ref.qsum l2.
Proof.
  induction 1; simpl.
  - reflexivity.
  - rewrite IHPermutation. reflexivity.
  - ring.
  - rewrite IHPermutation1. exact IHPermutation2.
Qed.








End ReimbursementFacts.

(** ** Editing an expense *)

Section Editing.
Context {num : Type} {N : Number num}.


Lemma find_first_hit (id : str) (f : Expense.t num -> Expense.t num)
    (l : list (Expense.t num)) :
  (forall e, Expense.id (f e) = Expense.id e) ->
  hd_error (filter (fun e => str_eqb (Expense.id e) id)
              (map (fun e => if str_eqb (Expense.id e) id then f e else e) l))
  = option_map f (find (fun e => str_eqb (Expense.id e) id) l).
Proof.
  intros Hf. induction l as [|e l IH]; simpl; [reflexivity|].
  destruct (str_eqb (Expense.id e) id) eqn:He.
  - simpl. rewrite Hf, He. reflexivity.
  - rewrite He. exact IH.
Qed.


(** The update and the debts of an edit depend on the body only; the run
    on a store that has the id updates every row of that id, answers with
    the first of them, and rebuilds the reimbursements of the id. *)
Lemma put_unfold (bodyText occ : option str) (p0 : Parsed.t num) :
  parseMessage (withDefault bodyText []) = Some p0 ->
  exists (u : ExpenseUpdate) (debts : list (Debt num)),
    debts = peerDebts (allocate p0) (Parsed.amount p0)
    /\ u_amount u = Some (Parsed.amount p0)
    /\ u_category u = Parsed.category p0
    /\ u_note u = Parsed.note p0
    /\ u_card u = Parsed.card p0
    /\ u_splitRatioMe u = Parsed.splitRatioMe p0
    /\ u_splitRatioOther u = Parsed.splitRatioOther p0
    /\ u_occurredOn u
       = (if nonEmpty (withDefault occ []) then Some (Ymd (withDefault occ []))
          else Parsed.occurredOn p0)
    /\ forall (st : Store num) (idParam : str) (old : Expense.t num),
        trim idParam <> [] ->
        find (fun e => str_eqb (Expense.id e) (trim idParam)) (expenses st)
        = Some old ->
        putExpense st idParam bodyText occ
        = (mkResponse 200 (ExpenseJson (updateRow u old)),
           insertDebts
             (deleteReimbursementsOf
                (mkStore (map (fun e => if str_eqb (Expense.id e)
                                                   (trim idParam)
                                        then updateRow u e else e)
                              (expenses st))
                         (reimbursements st) (ledger_entries st)
                         (created st))
                (trim idParam))
             (updateRow u old) (Expense.fromUser old)
             (withDefault bodyText []) debts).
Proof.
  intros Hparse.
  set (p1 := if nonEmpty (withDefault occ [])
             then setOccurredOn (Ymd (withDefault occ [])) p0 else p0).
  set (parsed := allocate p1).
  set (otherParties := partiesOr [lit "vyas"] parsed).
  exists (mkUpdate (Parsed.occurredOn parsed)
            (Some (Parsed.amount parsed))
            (Some (withDefault (Parsed.myAmount parsed)
                               (Parsed.amount parsed)))
            (Parsed.category parsed) (Parsed.note parsed)
            (Parsed.card parsed)
            (Some (withDefault (Parsed.paidBy parsed) Me))
            (Some (withDefault (Parsed.splitType parsed) SplitNone))
            (Parsed.splitRatioMe parsed)
            (Parsed.splitRatioOther parsed)
            (Some (withDefault (hd_error otherParties) (lit "vyas")))).
  exists (peerDebts parsed (Parsed.amount parsed)).
  assert (Hfields : Parsed.category parsed = Parsed.category p0
                    /\ Parsed.note parsed = Parsed.note p0
                    /\ Parsed.card parsed = Parsed.card p0
                    /\ Parsed.splitRatioMe parsed = Parsed.splitRatioMe p0
                    /\ Parsed.splitRatioOther parsed
                       = Parsed.splitRatioOther p0
                    /\ Parsed.amount parsed = Parsed.amount p0
                    /\ Parsed.occurredOn parsed
                       = (if nonEmpty (withDefault occ [])
                          then Some (Ymd (withDefault occ []))
                          else Parsed.occurredOn p0)
                    /\ forall a, peerDebts parsed a
                                 = peerDebts (allocate p0) a).
  { unfold parsed, p1. destruct (nonEmpty (withDefault occ [])).
    - rewrite allocate_setOccurredOn. unfold allocate, applyForPerson.
      simpl. destruct (Parsed.forPerson p0) as [f|];
        [destruct (nonEmpty f)|]; repeat split; reflexivity.
    - unfold allocate, applyForPerson.
      simpl. destruct (Parsed.forPerson p0) as [f|];
        [destruct (nonEmpty f)|]; repeat split; reflexivity. }
  destruct Hfields as (Hc & Hn & Hcd & Hrm & Hro & Ha & Hocc & Hd).
  cbn [u_category u_note u_card u_splitRatioMe u_splitRatioOther
       u_occurredOn u_amount].
  rewrite Ha, Hd. repeat split; try assumption.
  intros st idParam old Hid Hfind. unfold putExpense.
  apply nonEmpty_true in Hid. rewrite Hid. simpl negb. cbv iota.
  rewrite Hparse. cbv zeta. fold p1. fold parsed. fold otherParties.
  unfold updateExpenseById. cbv zeta.
  rewrite find_first_hit by reflexivity. rewrite Hfind. simpl option_map.
  cbv iota. cbn [Expense.amount updateRow u_amount withDefault Expense.fromUser].
  rewrite Ha, Hd. reflexivity.
Qed.

Lemma find_id_spec (id : str) (l : list (Expense.t num))
    (old : Expense.t num) :
  find (fun e => str_eqb (Expense.id e) id) l = Some old ->
  In old l /\ Expense.id old = id.
Proof.
  intros H. apply find_some in H. destruct H as [Hin Hid].
  apply str_eqb_eq in Hid. split; assumption.
Qed.








End Editing.

(** ** The WhatsApp webhook *)

Section WebhookFacts.
Context {num : Type} {N : Number num}.
Variable hmacSha256Hex : str -> str -> str.


End WebhookFacts.

(** ** The links from the reimbursements to the expenses *)

Section Links.
Context {num : Type} {N : Number num}.
Variable hmacSha256Hex : str -> str -> str.

Lemma linked_grow (st st' : Store num) (rows : list (Reimbursement.t num))
    (id : str) :
  Ref.linked st ->
  (forall e, In e (expenses st) -> exists e', In e' (expenses st')
                                             /\ Expense.id e' = Expense.id e) ->
  (forall r, In r (reimbursements st') ->
             In r (reimbursements st) \/ In r rows) ->
  Forall (fun r => Reimbursement.expenseId r = Some id) rows ->
  (rows <> [] -> exists e, In e (expenses st') /\ Expense.id e = id) ->
  Ref.linked st'.
Proof.
  intros Hst Hexp Hre Hrows Hid r i Hr Hi.
  destruct (Hre r Hr) as [Hold|Hnew].
  - destruct (Hst r i Hold Hi) as [e [He Hei]].
    destruct (Hexp e He) as [e' [He' Hid']]. exists e'. split; [exact He'|].
    congruence.
  - rewrite Forall_forall in Hrows. pose proof (Hrows r Hnew) as Hl.
    assert (Heq : i = id) by congruence. subst i. apply Hid.
    intros ->. contradiction.
Qed.

Lemma postLedger_tables (st : Store num) (bodyText bodyFrom : option str) :
  expenses (snd (postLedger st bodyText bodyFrom)) = expenses st
  /\ reimbursements (snd (postLedger st bodyText bodyFrom))
     = reimbursements st.
Proof.
  unfold postLedger. cbv zeta.
  destruct (negb (nonEmpty (trim (withDefault bodyText []))));
    [split; reflexivity|].
  destruct (parseMessage (withDefault bodyText [])) as [p|];
    [|split; reflexivity].
  destruct (negb (allowedLedgerType (withDefault (Parsed.type p) TIncome)));
    [split; reflexivity|].
  destruct (isReceivable (withDefault (Parsed.type p) TIncome)
            && negb (truthy (Parsed.counterparty p)));
    [split; reflexivity|].
  destruct (isReceivable (withDefault (Parsed.type p) TIncome)
            && match Parsed.direction p with
               | Some _ => false
               | None => true
               end); split; reflexivity.
Qed.

Lemma postWhatsapp_tables (st : Store num) (secret signature : option str)
    (rawBody : str) (body : option WebhookBody) (format accept : option str) :
  let st' := snd (postWhatsapp hmacSha256Hex st secret signature rawBody body
                               format accept) in
  reimbursements st' = reimbursements st
  /\ (expenses st' = expenses st
      \/ exists e, expenses st' = expenses st ++ [e]).
Proof.
  unfold postWhatsapp. cbv zeta.
  destruct (truthy secret && _); [split; [|left]; reflexivity|].
  destruct (negb (truthy (fst (extractWhatsAppLikeMessage body))));
    [split; [|left]; reflexivity|].
  destruct (parseMessage _) as [p|]; [|split; [|left]; reflexivity].
  unfold insertExpense.
  match goal with
  | |- context [if ?b then (AckText _, _) else _] => destruct b
  end; cbn [snd reimbursements expenses];
    (split; [reflexivity | right; eexists; reflexivity]).
Qed.

(** X13. No route that writes breaks the links: if every reimbursement that
    names an expense names an expense of the table, the same holds after
    [POST /api/ingest-message], [PUT /api/expenses/:id],
    [DELETE /api/expenses/:id], [POST /api/ledger] and
    [POST /webhook/whatsapp], whatever the request. *)
Theorem writes_keep_links (st : Store num) :
  Ref.linked st ->
  (forall text from source plain,
     Ref.linked (snd (ingestMessage st text from source plain)))
  /\ (forall idParam bodyText occ,
        Ref.linked (snd (putExpense st idParam bodyText occ)))
  /\ (forall idParam, Ref.linked (snd (deleteExpense st idParam)))
  /\ (forall bodyText bodyFrom,
        Ref.linked (snd (postLedger st bodyText bodyFrom)))
  /\ (forall secret signature rawBody body format accept,
        Ref.linked (snd (postWhatsapp hmacSha256Hex st secret signature
                                      rawBody body format accept))).
Proof.
  intros Hst. repeat split.
  - (* ingest *)
    intros text from source plain.
    destruct text as [text|]; [|exact Hst].
    destruct (parseMessage text) as [p0|] eqn:Hp.
    + destruct (@ingest_run num N st text from source plain p0 Hp)
        as (e & rows & st' & Hrun & _ & _ & He & Hr & _ & _ & Hlink).
      rewrite Hrun. cbn [snd].
      apply (@linked_grow st st' rows (Expense.id e) Hst).
      * intros e' He'. exists e'. split; [|reflexivity].
        rewrite He. apply in_or_app. left. exact He'.
      * intros r Hin. rewrite Hr in Hin. apply in_app_or in Hin. exact Hin.
      * exact Hlink.
      * intros _. exists e. split; [|reflexivity]. rewrite He.
        apply in_or_app. right. left. reflexivity.
    + unfold ingestMessage. destruct text; [exact Hst|]. rewrite Hp.
      exact Hst.
  - (* edit *)
    intros idParam bodyText occ.
    destruct (nonEmpty (trim idParam)) eqn:Hid;
      [|unfold putExpense; rewrite Hid; exact Hst].
    destruct (parseMessage (withDefault bodyText [])) as [p0|] eqn:Hp;
      [|unfold putExpense; rewrite Hid, Hp; exact Hst].
    destruct (find (fun e => str_eqb (Expense.id e) (trim idParam))
                   (expenses st)) as [old|] eqn:Hfind.
    + destruct (@put_unfold num N bodyText occ p0 Hp)
        as (u & debts & _ & _ & _ & _ & _ & _ & _ & _ & Hrun).
      apply nonEmpty_true in Hid.
      rewrite (Hrun st idParam old Hid Hfind). cbn [snd].
      match goal with |- Ref.linked (insertDebts ?s ?e ?f ?t ?d) =>
        destruct (insertDebts_spec d s e f t)
          as (rows & Hr & He & _ & _ & Hlink);
        set (st' := insertDebts s e f t d) in * end.
      simpl in Hr, He.
      destruct (find_id_spec _ _ Hfind) as [Hold Holdid].
      apply (@linked_grow st st' rows (trim idParam) Hst).
      * intros e He'. rewrite He.
        exists (if str_eqb (Expense.id e) (trim idParam)
                then updateRow u e else e).
        split; [apply (in_map (fun e => if str_eqb (Expense.id e)
                                                   (trim idParam)
                                        then updateRow u e else e));
                exact He'|].
        destruct (str_eqb (Expense.id e) (trim idParam)); reflexivity.
      * intros r Hin. rewrite Hr in Hin. apply in_app_or in Hin.
        destruct Hin as [Hin|Hin]; [left|right; exact Hin].
        apply filter_In in Hin. apply Hin.
      * change (Expense.id (updateRow u old)) with (Expense.id old) in Hlink.
        rewrite Holdid in Hlink. exact Hlink.
      * intros _. rewrite He. exists (updateRow u old). split.
        -- apply in_map_iff. exists old. split; [|exact Hold].
           rewrite Holdid, str_eqb_refl. reflexivity.
        -- exact Holdid.
    + unfold putExpense. rewrite Hid, Hp. simpl negb. cbv iota zeta.
      rewrite update_missing; [exact Hst|].
      intros e He Heq. apply (find_none _ _ Hfind) in He.
      rewrite Heq, str_eqb_refl in He. discriminate.
  - (* delete *)
    intros idParam. unfold deleteExpense.
    destruct (negb (nonEmpty (trim idParam))); [exact Hst|].
    unfold deleteExpenseById. cbv zeta.
    destruct (existsb _ _); cbn [snd];
      intros r i Hr Hi; simpl in Hr; apply filter_In in Hr;
      destruct Hr as [Hr Hkeep]; rewrite Hi in Hkeep;
      apply negb_true_iff, str_eqb_neq in Hkeep;
      destruct (Hst r i Hr Hi) as [e [He Hei]]; exists e;
      (split; [|exact Hei]); simpl; apply filter_In;
      (split; [exact He|]); apply negb_true_iff, str_eqb_neq; congruence.
  - (* ledger *)
    intros bodyText bodyFrom.
    destruct (postLedger_tables st bodyText bodyFrom) as [He Hr].
    intros r i Hin Hi. rewrite Hr in Hin. rewrite He.
    apply (Hst r i Hin Hi).
  - (* webhook *)
    intros secret signature rawBody body format accept.
    destruct (postWhatsapp_tables st secret signature rawBody body format
                accept) as [Hr He].
    intros r i Hin Hi. rewrite Hr in Hin.
    destruct (Hst r i Hin Hi) as [e [Hine Hei]]. exists e.
    split; [|exact Hei].
    destruct He as [He|[e' He]]; rewrite He; [exact Hine|].
    apply in_or_app. left. exact Hine.
Qed.

End Links.

(** ** Creating, then deleting *)

Section RoundTrip.
Context {num : Type} {N : Number num}.



End RoundTrip.

(** ** The guard of the API key *)














(** ** White space in a message *)











(** ** A token added at the end of a message *)






Lemma noSpace_trimmed (s : str) : noSpace s -> trim s = s.
Proof. apply noSpace_trim. Qed.
















(* ================================================================== *)
(** * The shares of an expense add up *)

Section Shares.
Local Open Scope Q_scope.



Lemma directions_of_debts (rows : list (Reimbursement.t Q))
    (debts : list (Debt Q)) (d : DebtDirection) :
  map debtOf rows = debts ->
  Forall (fun x => snd (fst x) = d) debts ->
  Forall (fun r => Reimbursement.direction r = d) rows.
Proof.
  intros <- H. rewrite Forall_map in H. exact H.
Qed.







End Shares.
(* ================================================================== *)
(** * A request that is refused changes nothing *)

Section Refusals.
Context {num : Type} {N : Number num}.
Variable hmacSha256Hex : str -> str -> str.



End Refusals.
(* ================================================================== *)
(** * A ledger entry needs its type *)

Section LedgerType.




Context {num : Type} {N : Number num}.


End LedgerType.
(* ================================================================== *)
(** * Amounts are whole cents *)

Section Cents.

Lemma digits12_length (s f r : str) (l : list (str * str)) :
  digits12 s = (f, r) :: l -> 1 <= length f <= 2.
Proof.
  unfold digits12. destruct s as [|a [|b s]].
  - discriminate.
  - destruct (isDigit a); [|discriminate].
    intros H. injection H as <- _ _. simpl. lia.
  - destruct (isDigit a); [|discriminate].
    destruct (isDigit b); intros H; injection H as <- _ _; simpl; lia.
Qed.

Lemma numberAt_frac (pre : nat) (s : str) (m : AmountMatch) :
  numberAt pre s = Some m ->
  forall f, am_frac m = Some f -> 1 <= length f <= 2.
Proof.
  unfold numberAt. destruct (spanDigits s) as [ds r].
  destruct (nonEmpty ds); [|discriminate].
  destruct (commaGroups r) as [gs r'].
  destruct r' as [|dot r''].
  - intros H. injection H as <-. intros f Hf. discriminate.
  - destruct (if Ascii.eqb dot "." then digits12 r'' else [])
      as [|[f0 r0] l] eqn:Hd.
    + intros H. injection H as <-. intros f Hf. discriminate.
    + intros H. injection H as <-. intros f Hf. simpl in Hf.
      injection Hf as <-. destruct (Ascii.eqb dot "."); [|discriminate].
      apply (digits12_length _ Hd).
Qed.

Lemma amountAt_frac (s : str) (m : AmountMatch) :
  amountAt s = Some m ->
  forall f, am_frac m = Some f -> 1 <= length f <= 2.
Proof.
  unfold amountAt. destruct s as [|c r]; [discriminate|].
  destruct (Ascii.eqb c "$"); [apply numberAt_frac|].
  destruct (str_eqb _ _); apply numberAt_frac.
Qed.

Lemma findAmount_frac (s : str) (idx : nat) (m : AmountMatch) :
  findAmount idx s = Some m ->
  forall f, am_frac m = Some f -> 1 <= length f <= 2.
Proof.
  revert idx. induction s as [|c r IH]; intros idx; cbn [findAmount].
  - change (amountAt []) with (@None AmountMatch). discriminate.
  - destruct (amountAt (c :: r)) as [m0|] eqn:Ha.
    + intros H. injection H as <-. intros f Hf. simpl in Hf.
      apply (amountAt_frac _ Ha). exact Hf.
    + apply IH.
Qed.

Local Open Scope Q_scope.

(** A numeral with at most two digits after the point is a number of
    hundredths. *)
Lemma decimalToQ_cents (int frac : str) :
  (length frac <= 2)%nat ->
  exists cents : Z, decimalToQ int frac == cents # 100.
Proof.
  intros Hlen. unfold decimalToQ.
  destruct frac as [|a [|b [|c frac]]]; simpl in Hlen; try lia.
  - exists (digitsToZ (int ++ []) * 100)%Z. rewrite Qred_correct.
    unfold Qeq. simpl. lia.
  - exists (digitsToZ (int ++ [a]) * 10)%Z. rewrite Qred_correct.
    unfold Qeq. simpl. lia.
  - exists (digitsToZ (int ++ [a; b])). rewrite Qred_correct.
    unfold Qeq. simpl. lia.
Qed.

(** X23. Amounts are whole cents: the amount of every message the parser
    returns is a positive number of hundredths, since the pattern of the
    amount takes two digits after the point at most; further digits are
    left in the text, not rounded into the amount. *)
Theorem amounts_are_whole_cents (text : str) (q : Parsed.t Q) :
  parseExpenseMessage text = Some q ->
  exists cents : Z, (0 < cents)%Z /\ Parsed.amount q == cents # 100.
Proof.
  intros Hparse. pose proof (p_amount (parse_ok _ Hparse)) as Hpos.
  assert (H : exists cents : Z, Parsed.amount q == cents # 100).
  { revert Hparse. unfold parseExpenseMessage. cbv zeta.
    destruct (parseDateToken _) as [occurredOn rest].
    destruct (negb (nonEmpty rest)); [discriminate|].
    destruct (findAmount 0 rest) as [m|] eqn:Hm; [|discriminate].
    destruct (negb (jsIsFinite (amountOf m))
              || negb (jsIsPositive (amountOf m))); [discriminate|].
    destruct (categoryAndNote _) as [category note].
    intros H. injection H as <-. cbn [Parsed.amount].
    pose proof (findAmount_frac _ _ Hm) as Hf.
    unfold amountOf. destruct (am_frac m) as [f|] eqn:Hfrac.
    - apply decimalToQ_cents. destruct (Hf f eq_refl). lia.
    - apply decimalToQ_cents. simpl. lia. }
  destruct H as [cents Hc]. exists cents. split; [|exact Hc].
  rewrite Hc in Hpos. unfold Qlt in Hpos. simpl in Hpos. lia.
Qed.

End Cents.
(* ================================================================== *)
(** * Instances of the further properties *)












(** The links of [sharedRoom] are sound, and stay so after a delete. *)
Lemma writes_keep_links_witness :
  Ref.linked sharedRoom
  /\ Ref.linked (snd (deleteExpense sharedRoom (lit "row-0"))).
Proof.
  assert (H0 : Ref.linked (emptyStore Q)).
  { intros r id []. }
  destruct (@writes_keep_links Q _ (fun _ _ => []) (emptyStore Q) H0)
    as (Hingest & _).
  assert (H1 : Ref.linked sharedRoom) by apply Hingest.
  split; [exact H1|].
  destruct (@writes_keep_links Q _ (fun _ _ => []) sharedRoom H1)
    as (_ & _ & Hdelete & _).
  apply Hdelete.
Defined.




(** The ratio [2/1] is kept with its two numbers. *)
Lemma ratio_split_is_well_formed_witness :
  exists q a b,
    parseExpenseMessage (lit "room 300 split:2/1") = Some q
    /\ Parsed.splitType q = Some SplitRatio
    /\ Parsed.splitRatioMe q = Some a /\ Parsed.splitRatioOther q = Some b
    /\ (0 < a)%Q /\ (0 < b)%Q.
Proof.
  assert (H : exists q, parseExpenseMessage (lit "room 300 split:2/1")
                        = Some q
                        /\ Parsed.splitType q = Some SplitRatio).
  { vm_compute. eexists. split; reflexivity. }
  destruct H as [q [Hq Ht]].
  destruct (@ratio_split_is_well_formed (lit "room 300 split:2/1") q Hq)
    as (_ & Hr).
  destruct (Hr Ht) as (a & b & Ha & Hb & Hpa & Hpb).
  exists q, a, b. repeat split; assumption.
Defined.






(** The third digit after the point is not rounded into the amount:
    [12.345] is read as 12.34. *)
Lemma amounts_are_whole_cents_witness :
  exists q cents,
    parseExpenseMessage (lit "lunch 12.345") = Some q
    /\ (0 < cents)%Z /\ (Parsed.amount q == cents # 100)%Q
    /\ (Parsed.amount q == 1234 # 100)%Q.
Proof.
  assert (H : exists q, parseExpenseMessage (lit "lunch 12.345") = Some q
                        /\ (Parsed.amount q == 1234 # 100)%Q).
  { vm_compute. eexists. split; reflexivity. }
  destruct H as [q [Hq Hv]].
  destruct (@amounts_are_whole_cents (lit "lunch 12.345") q Hq)
    as [cents [Hpos Hc]].
  exists q, cents. repeat split; assumption.
Defined.
